(** * nerovaagent: the command-line front end of the nerova runtime

    A shallow embedding of [packages/nerovaagent/bin/nerovaagent.js]:
    the option parser [parseArgs], the prompt and context resolution of
    [handleStart], the daemon gate [requireAgentDaemon], the command
    dispatcher [main] and the run-result renderer [renderRunResult].

    The script talks to a console, to [process.exit]/[process.exitCode],
    to the file system, to the daemon manager and to the runtime client.
    The console, the exit code and the requests issued are the state of a
    small monad; the collaborators are fields of a [world] record.  The
    calls made to the collaborators (the probe of the daemon, its activation,
    a request of the client) are recorded next to the console lines, the way
    a stub counts them. *)

From Stdlib Require Import String Ascii List ZArith Bool Lia DecimalString.
Import ListNotations.
Open Scope string_scope.

(** ** Strings *)

Definition dquote : string := String (ascii_of_nat 34) EmptyString.
Definition backslash : string := String (ascii_of_nat 92) EmptyString.

(** [Array.prototype.join] on an array of strings. *)
Fixpoint join (sep : string) (l : list string) : string :=
  match l with
  | [] => ""
  | [x] => x
  | x :: rest => x ++ sep ++ join sep rest
  end.

Fixpoint rev_string (acc s : string) : string :=
  match s with
  | EmptyString => acc
  | String c rest => rev_string (String c acc) rest
  end.

(** A JavaScript string is held as its UTF-8 bytes.  [String.prototype.trim]
    removes the code points of WhiteSpace and LineTerminator: U+0009..U+000D,
    U+0020, U+00A0, U+1680, U+2000..U+200A, U+2028, U+2029, U+202F, U+205F,
    U+3000 and U+FEFF.  [ws1], [ws2] and [ws3] recognise their encodings of
    one, two and three bytes. *)
Definition ws1 (a : ascii) : bool :=
  let n := nat_of_ascii a in
  (((9 <=? n) && (n <=? 13)) || (n =? 32))%nat.

Definition ws2 (a b : ascii) : bool :=
  ((nat_of_ascii a =? 194) && (nat_of_ascii b =? 160))%nat.

Definition ws3 (a b c : ascii) : bool :=
  let x := nat_of_ascii a in
  let y := nat_of_ascii b in
  let z := nat_of_ascii c in
  (((x =? 225) && (y =? 154) && (z =? 128))
   || ((x =? 226) && (y =? 128)
       && (((128 <=? z) && (z <=? 138)) || (z =? 168) || (z =? 169) || (z =? 175)))
   || ((x =? 226) && (y =? 129) && (z =? 159))
   || ((x =? 227) && (y =? 128) && (z =? 128))
   || ((x =? 239) && (y =? 187) && (z =? 191)))%nat.

Fixpoint trimStart (s : string) : string :=
  match s with
  | EmptyString => s
  | String a r1 =>
      if ws1 a then trimStart r1 else
      match r1 with
      | EmptyString => s
      | String b r2 =>
          if ws2 a b then trimStart r2 else
          match r2 with
          | EmptyString => s
          | String c r3 => if ws3 a b c then trimStart r3 else s
          end
      end
  end.

(** The same scan on the reversed bytes: the last byte of an encoding comes
    first. *)
Fixpoint trimStart_rev (s : string) : string :=
  match s with
  | EmptyString => s
  | String c r1 =>
      if ws1 c then trimStart_rev r1 else
      match r1 with
      | EmptyString => s
      | String b r2 =>
          if ws2 b c then trimStart_rev r2 else
          match r2 with
          | EmptyString => s
          | String a r3 => if ws3 a b c then trimStart_rev r3 else s
          end
      end
  end.

Definition trimEnd (s : string) : string :=
  rev_string "" (trimStart_rev (rev_string "" s)).

Definition trim (s : string) : string := trimEnd (trimStart s).

(** Truthiness of a string: [!!s]. *)
Definition nonempty (s : string) : bool :=
  match s with EmptyString => false | _ => true end.

(** ** Values

    What a response of the runtime service holds: the data [JSON.parse]
    produces, and [undefined] for what a property read finds missing.  An
    object is the list of its own properties in property order.

    Numbers are an interface: the script never computes with a number, it
    only tests ([ToBoolean]), prints ([Number::toString]) and serialises it
    ([JSON.stringify] looks at finiteness).  Concrete runs use the integers
    a double holds exactly (magnitude below 2^53), which [Number::toString]
    prints in plain decimal; past that range the instance below is not
    JavaScript's, and no theorem is stated of it. *)

Class Number : Type := {
  number : Type;
  Number_toString : number -> string;
  Number_toBoolean : number -> bool;
  Number_isFinite : number -> bool
}.

#[export] Instance Z_Number : Number := {
  number := Z;
  Number_toString := fun z => NilZero.string_of_int (Z.to_int z);
  Number_toBoolean := fun z => negb (Z.eqb z 0);
  Number_isFinite := fun _ => true
}.

Section Values.

Context {N : Number}.

#[local] Set Warnings "-register-all".

Inductive value : Type :=
| VUndefined
| VNull
| VBool (b : bool)
| VNum (n : number)
| VStr (s : string)
| VArr (items : list value)
| VObj (props : list (string * value)).

(** [ToBoolean]. *)
Definition truthy (v : value) : bool :=
  match v with
  | VUndefined | VNull => false
  | VBool b => b
  | VNum n => Number_toBoolean n
  | VStr s => nonempty s
  | VArr _ | VObj _ => true
  end.

Definition typeof (v : value) : string :=
  match v with
  | VUndefined => "undefined"
  | VBool _ => "boolean"
  | VNum _ => "number"
  | VStr _ => "string"
  | VNull | VArr _ | VObj _ => "object"
  end.

Definition Array_isArray (v : value) : bool :=
  match v with VArr _ => true | _ => false end.

Definition nullish (v : value) : bool :=
  match v with VUndefined | VNull => true | _ => false end.

(** [a || b] and [a ?? b] on values already computed. *)
Definition or_else (a b : value) : value := if truthy a then a else b.
Definition nullish_or (a b : value) : value := if nullish a then b else a.

(** [v === 'lit']. *)
Definition is_string (lit : string) (v : value) : bool :=
  match v with VStr s => String.eqb s lit | _ => false end.

Fixpoint lookup (key : string) (props : list (string * value)) : option value :=
  match props with
  | [] => None
  | (k, v) :: rest => if String.eqb k key then Some v else lookup key rest
  end.

(** [v.key] on a value that is neither [null] nor [undefined], for the
    property names the script reads (none of them is inherited from a
    prototype, so a primitive or an array yields [undefined]). *)
Definition prop (v : value) (key : string) : value :=
  match v with
  | VObj props => match lookup key props with Some x => x | None => VUndefined end
  | _ => VUndefined
  end.

(** [a[0]] on an array. *)
Definition first_item (items : list value) : value :=
  match items with [] => VUndefined | x :: _ => x end.

(** [ToString], [None] where it raises a TypeError.  An object prints as
    [[object Object]] through [Object.prototype.toString]; an own property
    named [toString] hides that method, its value is never callable, and
    neither is what [valueOf] gives back a primitive: the conversion
    raises.  An array prints through [join]. *)
Fixpoint ToString (v : value) : option string :=
  match v with
  | VUndefined => Some "undefined"
  | VNull => Some "null"
  | VBool true => Some "true"
  | VBool false => Some "false"
  | VNum n => Some (Number_toString n)
  | VStr s => Some s
  | VArr items =>
      option_map (join ",")
        ((fix items_toString (l : list value) : option (list string) :=
            match l with
            | [] => Some []
            | x :: rest =>
                match (if nullish x then Some "" else ToString x) with
                | None => None
                | Some s =>
                    match items_toString rest with
                    | None => None
                    | Some ss => Some (s :: ss)
                    end
                end
            end) items)
  | VObj props =>
      match lookup "toString" props with
      | Some _ => None
      | None => Some "[object Object]"
      end
  end.

(** The element conversion of [Array.prototype.join]: [null] and
    [undefined] print as the empty string. *)
Definition item_toString (v : value) : option string :=
  if nullish v then Some "" else ToString v.

Fixpoint items_toString (l : list value) : option (list string) :=
  match l with
  | [] => Some []
  | x :: rest =>
      match item_toString x with
      | None => None
      | Some s =>
          match items_toString rest with
          | None => None
          | Some ss => Some (s :: ss)
          end
      end
  end.

(** [items.join(sep)]. *)
Definition Array_join (sep : string) (items : list value) : option string :=
  option_map (join sep) (items_toString items).

(** [QuoteJSONString] on the bytes of a string: the quote, the backslash and
    the control characters below U+0020 are escaped. *)
Definition hex_digit (n : nat) : string :=
  String (ascii_of_nat (if (n <? 10)%nat then 48 + n else 87 + n)) EmptyString.

Definition quote_char (a : ascii) : string :=
  let n := nat_of_ascii a in
  if (n =? 34)%nat then backslash ++ dquote
  else if (n =? 92)%nat then backslash ++ backslash
  else if (n =? 8)%nat then backslash ++ "b"
  else if (n =? 9)%nat then backslash ++ "t"
  else if (n =? 10)%nat then backslash ++ "n"
  else if (n =? 12)%nat then backslash ++ "f"
  else if (n =? 13)%nat then backslash ++ "r"
  else if (n <? 32)%nat then
    backslash ++ "u00" ++ hex_digit (n / 16) ++ hex_digit (n mod 16)
  else String a EmptyString.

Fixpoint quote_chars (s : string) : string :=
  match s with
  | EmptyString => ""
  | String a rest => quote_char a ++ quote_chars rest
  end.

Definition QuoteJSONString (s : string) : string :=
  dquote ++ quote_chars s ++ dquote.

(** [JSON.stringify(v)], [None] where it returns [undefined].  A number that
    is not finite serialises as [null]; in an array [undefined] serialises
    as [null]; in an object a property holding [undefined] is left out. *)
Fixpoint JSON_stringify (v : value) : option string :=
  match v with
  | VUndefined => None
  | VNull => Some "null"
  | VBool true => Some "true"
  | VBool false => Some "false"
  | VNum n => Some (if Number_isFinite n then Number_toString n else "null")
  | VStr s => Some (QuoteJSONString s)
  | VArr items =>
      Some ("[" ++ join ","
              ((fix elements (l : list value) : list string :=
                  match l with
                  | [] => []
                  | x :: rest =>
                      match JSON_stringify x with
                      | Some s => s :: elements rest
                      | None => "null" :: elements rest
                      end
                  end) items) ++ "]")
  | VObj props =>
      Some ("{" ++ join ","
              ((fix members (l : list (string * value)) : list string :=
                  match l with
                  | [] => []
                  | (k, x) :: rest =>
                      match JSON_stringify x with
                      | Some s => (QuoteJSONString k ++ ":" ++ s) :: members rest
                      | None => members rest
                      end
                  end) props) ++ "}")
  end.

(** What a template literal or [console.log] shows of an optional string. *)
Definition string_or_undefined (o : option string) : value :=
  match o with Some s => VStr s | None => VUndefined end.

End Values.

Arguments value {N}.

(** ** The process: console, exit code, requests

    A command runs in a state monad over what an observer of the process
    sees.  A computation completes normally, by a thrown value (which
    [try]/[catch] intercepts), or by [process.exit] (which nothing
    intercepts). *)

Section Process.

Context {N : Number}.

Inductive exn : Type :=
| TypeError (message : string)
| Rejection (reason : value).

Inductive event : Type :=
| ConsoleLog (args : list value)
| ConsoleError (args : list value)
| ClientRequest (pathname method : string) (body : value)
| DaemonProbe
| DaemonEnsure (config : value)
| DaemonImport.

Record process : Type := {
  events : list event;
  exitCode : option Z
}.

Inductive completion (A : Type) : Type :=
| Normal (a : A)
| Throw (e : exn)
| Exit (code : Z).

Definition M (A : Type) : Type := process -> completion A * process.

Definition ret {A} (a : A) : M A := fun p => (Normal A a, p).

Definition bind {A B} (m : M A) (k : A -> M B) : M B :=
  fun p =>
    match m p with
    | (Normal _ a, p') => k a p'
    | (Throw _ e, p') => (Throw B e, p')
    | (Exit _ c, p') => (Exit B c, p')
    end.

Definition throw {A} (e : exn) : M A := fun p => (Throw A e, p).

Definition emit (ev : event) : M unit :=
  fun p => (Normal unit tt, {| events := events p ++ [ev]; exitCode := exitCode p |}).

Definition console_log (args : list value) : M unit := emit (ConsoleLog args).
Definition console_error (args : list value) : M unit := emit (ConsoleError args).

(** [process.exit(code)]. *)
Definition process_exit {A} (code : Z) : M A := fun p => (Exit A code, p).

(** [process.exitCode = code]. *)
Definition set_exitCode (code : Z) : M unit :=
  fun p => (Normal unit tt, {| events := events p; exitCode := Some code |}).

(** [try { body } catch (err) { handler }]. *)
Definition try_catch {A} (body : M A) (handler : exn -> M A) : M A :=
  fun p =>
    match body p with
    | (Throw _ e, p') => handler e p'
    | r => r
    end.

(** The status the process ends with. *)
Definition exit_status {A} (r : completion A * process) : Z :=
  match r with
  | (Exit _ c, _) => c
  | (_, p) => match exitCode p with Some c => c | None => 0%Z end
  end.

Definition start_process : process := {| events := []; exitCode := None |}.

End Process.

Arguments Normal {N A} a.
Arguments Throw {N A} e.
Arguments Exit {N A} code.

Declare Scope js_scope.
Delimit Scope js_scope with js.
Notation "x <- m ;; k" := (bind m (fun x => k))
  (at level 100, m at next level, right associativity) : js_scope.
Notation "m ;; k" := (bind m (fun _ => k))
  (at level 100, right associativity) : js_scope.
Open Scope js_scope.

Section Access.

Context {N : Number}.

(** [v.key]: reading a property of [null] or [undefined] raises. *)
Definition Get (v : value) (key : string) : M value :=
  if nullish v
  then throw (TypeError ("Cannot read properties of " ++
                match ToString v with Some s => s | None => "" end ++
                " (reading '" ++ key ++ "')"))
  else ret (prop v key).

(** [v?.key]. *)
Definition Get_opt (v : value) (key : string) : value :=
  if nullish v then VUndefined else prop v key.

(** [`${v}`]. *)
Definition str (v : value) : M string :=
  match ToString v with
  | Some s => ret s
  | None => throw (TypeError "Cannot convert object to primitive value")
  end.

(** [items.join(sep)] as a statement. *)
Definition joined (sep : string) (items : list value) : M string :=
  match Array_join sep items with
  | Some s => ret s
  | None => throw (TypeError "Cannot convert object to primitive value")
  end.

(** [for (const x of items) body(x)]. *)
Fixpoint for_of {A} (items : list A) (body : A -> M unit) : M unit :=
  match items with
  | [] => ret tt
  | x :: rest => body x ;; for_of rest body
  end.

(** What the handlers read of a caught value: [err?.message], [err?.data]
    and [err] itself. *)
Definition err_value (e : exn) : value :=
  match e with
  | TypeError m => VObj [("message", VStr m)]
  | Rejection v => v
  end.

Definition err_message (e : exn) : value := Get_opt (err_value e) "message".
Definition err_data (e : exn) : value := Get_opt (err_value e) "data".

End Access.

(** ** Option parsing: [parseArgs] *)

(** The object [parseArgs] builds: [positional] is its [_] array, a flag
    that was never set is [None]. *)
Record ParsedOptions : Type := {
  positional : list string;
  promptFile : option string;
  prompt : option string;
  context : option string;
  contextFile : option string;
  criticKey : option string;
  assistantKey : option string;
  assistantId : option string
}.

Definition no_options : ParsedOptions :=
  {| positional := []; promptFile := None; prompt := None; context := None;
     contextFile := None; criticKey := None; assistantKey := None;
     assistantId := None |}.

Definition push_positional (token : string) (o : ParsedOptions) : ParsedOptions :=
  {| positional := positional o ++ [token]; promptFile := promptFile o;
     prompt := prompt o; context := context o; contextFile := contextFile o;
     criticKey := criticKey o; assistantKey := assistantKey o;
     assistantId := assistantId o |}.

Definition set_promptFile (v : string) (o : ParsedOptions) : ParsedOptions :=
  {| positional := positional o; promptFile := Some v;
     prompt := prompt o; context := context o; contextFile := contextFile o;
     criticKey := criticKey o; assistantKey := assistantKey o;
     assistantId := assistantId o |}.

Definition set_prompt (v : string) (o : ParsedOptions) : ParsedOptions :=
  {| positional := positional o; promptFile := promptFile o;
     prompt := Some v; context := context o; contextFile := contextFile o;
     criticKey := criticKey o; assistantKey := assistantKey o;
     assistantId := assistantId o |}.

Definition set_context (v : string) (o : ParsedOptions) : ParsedOptions :=
  {| positional := positional o; promptFile := promptFile o;
     prompt := prompt o; context := Some v; contextFile := contextFile o;
     criticKey := criticKey o; assistantKey := assistantKey o;
     assistantId := assistantId o |}.

Definition set_contextFile (v : string) (o : ParsedOptions) : ParsedOptions :=
  {| positional := positional o; promptFile := promptFile o;
     prompt := prompt o; context := context o; contextFile := Some v;
     criticKey := criticKey o; assistantKey := assistantKey o;
     assistantId := assistantId o |}.

Definition set_criticKey (v : string) (o : ParsedOptions) : ParsedOptions :=
  {| positional := positional o; promptFile := promptFile o;
     prompt := prompt o; context := context o; contextFile := contextFile o;
     criticKey := Some v; assistantKey := assistantKey o;
     assistantId := assistantId o |}.

Definition set_assistantKey (v : string) (o : ParsedOptions) : ParsedOptions :=
  {| positional := positional o; promptFile := promptFile o;
     prompt := prompt o; context := context o; contextFile := contextFile o;
     criticKey := criticKey o; assistantKey := Some v;
     assistantId := assistantId o |}.

Definition set_assistantId (v : string) (o : ParsedOptions) : ParsedOptions :=
  {| positional := positional o; promptFile := promptFile o;
     prompt := prompt o; context := context o; contextFile := contextFile o;
     criticKey := criticKey o; assistantKey := assistantKey o;
     assistantId := Some v |}.

(** The loop of [parseArgs] from index [i] on, [argv] being the tokens from
    [i] and [out] the object built so far.  [next] is [argv[i + 1]]:
    [undefined] past the end, and falsy as well when it is the empty
    string.  [consume()] steps over [next]. *)
Fixpoint parseArgs_loop (argv : list string) (out : ParsedOptions) : ParsedOptions :=
  match argv with
  | [] => out
  | token :: rest =>
      match rest with
      | [] => push_positional token out
      | next :: after =>
          if (token =? "--prompt-file") && nonempty next then
            parseArgs_loop after (set_promptFile next out)
          else if (token =? "--prompt") && nonempty next then
            parseArgs_loop after (set_prompt next out)
          else if (token =? "--context") && nonempty next then
            parseArgs_loop after (set_context next out)
          else if (token =? "--context-file") && nonempty next then
            parseArgs_loop after (set_contextFile next out)
          else if (token =? "--critic-key") && nonempty next then
            parseArgs_loop after (set_criticKey next out)
          else if (token =? "--assistant-key") && nonempty next then
            parseArgs_loop after (set_assistantKey next out)
          else if (token =? "--assistant-id") && nonempty next then
            parseArgs_loop after (set_assistantId next out)
          else parseArgs_loop rest (push_positional token out)
      end
  end.

Definition parseArgs (argv : list string) : ParsedOptions :=
  parseArgs_loop argv no_options.

(** Truthiness of an optional string: [!!options.prompt]. *)
Definition opt_truthy (o : option string) : bool :=
  match o with Some s => nonempty s | None => false end.

(** The string of an optional string that was found truthy ([options.context
    || ''] otherwise). *)
Definition opt_string (o : option string) : string :=
  match o with Some s => s | None => "" end.

(** ** The run-result renderer: [renderRunResult] *)

Section Renderer.

Context {N : Number}.

(** Line 167: [run.status || (run.ok ? 'completed' : 'unknown')]. *)
Definition effective_status (run : value) : M value :=
  st <- Get run "status" ;;
  if truthy st then ret st else
  ok <- Get run "ok" ;;
  ret (if truthy ok then VStr "completed" else VStr "unknown").

(** Line 168, the summary line. *)
Definition summary_line (run status : value) : M string :=
  s_status <- str status ;;
  it <- Get run "iterations" ;;
  s_iterations <- str (nullish_or it (VStr "n/a")) ;;
  agent <- Get run "agent" ;;
  s_agent <- str (nullish_or (Get_opt agent "id") (VStr "unknown")) ;;
  ret ("[nerovaagent] status=" ++ s_status ++ " iterations=" ++ s_iterations
       ++ " agent=" ++ s_agent).

(** Line 178:
    [decision.reason || decision.summary || decision?.target?.reason || '']. *)
Definition step_reason (decision : value) : M value :=
  r <- Get decision "reason" ;;
  if truthy r then ret r else
  r <- Get decision "summary" ;;
  if truthy r then ret r else
  ret (or_else (Get_opt (Get_opt decision "target") "reason") (VStr "")).

(** Lines 181-184: the label of a target, [exact || partial]. *)
Definition target_label (target : value) : M value :=
  h <- Get target "hints" ;;
  let hints := or_else h (VObj []) in
  te <- Get hints "text_exact" ;;
  exact <- match te with
           | VArr items => joined " | " items
           | _ => ret ""
           end ;;
  tp <- Get hints "text_partial" ;;
  partial <- (if truthy tp then ret tp else
              tc <- Get hints "text_contains" ;;
              ret (or_else (match tc with
                            | VArr items => first_item items
                            | _ => VBool false
                            end) (VStr ""))) ;;
  ret (or_else (VStr exact) partial).

(** Lines 180-188. *)
Definition render_target (decision : value) : M unit :=
  target <- Get decision "target" ;;
  if truthy target && (typeof target =? "object") then
    label <- target_label target ;;
    if truthy label then
      s <- str label ;;
      console_log [VStr ("   target: " ++ s)]
    else ret tt
  else ret tt.

(** Lines 189-194. *)
Definition render_result (entry : value) : M unit :=
  r <- Get entry "result" ;;
  let result := or_else r (VObj []) in
  next <- Get result "next" ;;
  if truthy next && negb (is_string "continue" next) then
    s_next <- str next ;;
    reason <- Get result "reason" ;;
    s_reason <- (if truthy reason
                 then s <- str reason ;; ret (" reason=" ++ s)
                 else ret "") ;;
    console_log [VStr ("   result: next=" ++ s_next ++ s_reason)]
  else
    clicked <- Get result "clicked" ;;
    if truthy clicked then
      name <- Get clicked "name" ;;
      who <- (if truthy name then ret name else
              id <- Get clicked "id" ;;
              ret (or_else id (VStr "candidate"))) ;;
      s_who <- str who ;;
      hit_state <- Get clicked "hit_state" ;;
      s_state <- str (or_else hit_state (VStr "n/a")) ;;
      console_log [VStr ("   clicked: " ++ s_who ++ " (state=" ++ s_state ++ ")")]
    else ret tt.

(** Lines 195-198. *)
Definition render_assistant (entry : value) : M unit :=
  assistant <- Get entry "assistant" ;;
  if truthy assistant then
    p <- Get assistant "parsed" ;;
    parsed <- (if truthy p then ret p else Get assistant "raw") ;;
    s <- (if typeof parsed =? "string" then str parsed
          else str (string_or_undefined (JSON_stringify parsed))) ;;
    console_log [VStr ("   assistant: " ++ s)]
  else ret tt.

(** Lines 175-198, the body of the loop over the timeline. *)
Definition render_entry (entry : value) : M unit :=
  it <- Get entry "iteration" ;;
  let iter := nullish_or it (VStr "?") in
  d <- Get entry "decision" ;;
  let decision := or_else d (VObj []) in
  a <- Get decision "action" ;;
  let action := or_else a (VStr "none") in
  reason <- step_reason decision ;;
  s_iter <- str iter ;;
  s_action <- str action ;;
  s_reason <- (if truthy reason
               then s <- str reason ;; ret (" :: " ++ s)
               else ret "") ;;
  console_log [VStr (" step " ++ s_iter ++ ": action=" ++ s_action ++ s_reason)] ;;
  render_target decision ;;
  render_result entry ;;
  render_assistant entry.

(** Line 170: [Array.isArray(run.timeline) ? run.timeline : []]. *)
Definition timeline_of (tl : value) : list value :=
  match tl with VArr items => items | _ => [] end.

(** Lines 205-209: the closed set of successful statuses. *)
Definition exit_decision (status : value) : M unit :=
  if negb (is_string "completed" status) then
    set_exitCode 1 ;;
    s <- str status ;;
    console_error [VStr ("[nerovaagent] run finished with status " ++ s
                         ++ ". Inspect timeline for details.")]
  else ret tt.

Definition renderRunResult (run : value) : M unit :=
  if negb (truthy run) || negb (typeof run =? "object") then
    console_log [VStr "Agent response:"; string_or_undefined (JSON_stringify run)]
  else
    status <- effective_status run ;;
    line <- summary_line run status ;;
    console_log [VStr line] ;;
    tl <- Get run "timeline" ;;
    let timeline := timeline_of tl in
    (if (length timeline =? 0)%nat
     then console_log [VStr "[nerovaagent] timeline: <empty>"]
     else ret tt) ;;
    for_of timeline render_entry ;;
    ch <- Get run "completeHistory" ;;
    match ch with
    | VArr history =>
        if (length history =? 0)%nat then ret tt else
        s <- joined " | " history ;;
        console_log [VStr (" complete history: " ++ s)]
    | _ => ret tt
    end ;;
    exit_decision status.

End Renderer.

(** ** The collaborators

    What a command finds outside the script: the environment variables, the
    file system ([readFileSync] returns the contents or raises), the daemon
    manager of [lib/agent-manager.js] and the client of [lib/runtime.js]
    (a request resolves to a value or rejects).  The two libraries are
    known by their contracts only (sections 4.2 and 4.3 of the
    specification): a probe that answers yes or no, an activation that
    returns an identifier or fails, one request at a time. *)

Record world {N : Number} : Type := {
  env : string -> option string;
  readFileSync : string -> string + exn;
  isAgentDaemonRunning : bool;
  ensureAgentDaemon : value -> value + exn;
  client_origin : value;
  client_request : string -> string -> value -> value + exn
}.

(** ** The commands *)

Section Commands.

Context {N : Number}.
Variable w : world.

Definition help_text : string :=
"nerovaagent commands:
  (no command)                      Activate the local agent daemon
  playwright-launch                 Warm the local Playwright runtime
  start <prompt|string>             Kick off a run with the given prompt
    --prompt-file <path>            Read prompt from a file
    --context <string>              Supply additional context notes for the run
    --context-file <path>           Load context notes from a file
    --critic-key <key>              Override critic OpenAI key
    --assistant-key <key>           Override Step 4 assistant key
    --assistant-id <id>             Override Step 4 assistant id
  status                            Fetch runtime status
  help                              Show this message
".

Definition printHelp : M unit := console_log [VStr help_text].

(** [client.request(pathname, { method, body })]: the request is issued,
    then resolves or rejects. *)
Definition callRuntime (pathname method : string) (body : value) : M value :=
  emit (ClientRequest pathname method body) ;;
  match client_request w pathname method body with
  | inl result => ret result
  | inr err => throw err
  end.

(** [err?.message || err]. *)
Definition message_or_err (err : exn) : value :=
  or_else (err_message err) (err_value err).

Definition loadFileSafe (filePath : string) : M string :=
  match readFileSync w filePath with
  | inl contents => ret contents
  | inr err =>
      console_error [VStr ("Failed to read " ++ filePath ++ ":"); message_or_err err] ;;
      process_exit 1
  end.

Definition handleActivate : M unit :=
  let config := VObj [("origin", client_origin w)] in
  try_catch
    (emit (DaemonEnsure config) ;;
     match ensureAgentDaemon w config with
     | inl pid =>
         s <- str pid ;;
         console_log [VStr ("[nerovaagent] agent daemon running (pid " ++ s ++ ")")] ;;
         console_log [VStr ("[nerovaagent] You can now run `nerovaagent playwright-launch` or `nerovaagent start "
                            ++ dquote ++ "<prompt>" ++ dquote ++ "`.")]
     | inr err => throw err
     end)
    (fun err =>
       console_error [VStr "Failed to activate agent daemon:"; message_or_err err] ;;
       process_exit 1).

Definition daemon_missing : string :=
  "No active nerova agent daemon detected. Run `nerovaagent` first to activate it.".

(** The gate: the probe is called (the call is recorded), and a probe that
    reports false ends the command. *)
Definition requireAgentDaemon : M bool :=
  emit DaemonProbe ;;
  if isAgentDaemonRunning w then ret true else
  console_error [VStr daemon_missing] ;;
  process_exit 1.

Definition prompt_missing : string :=
  "A prompt is required. Pass as argument or use --prompt/--prompt-file.".

(** Lines 99-105 of [handleStart]: the prompt before it is checked. *)
Definition resolve_prompt (options : ParsedOptions) : M (option string) :=
  let prompt0 := prompt options in
  prompt1 <- (if negb (opt_truthy prompt0) && opt_truthy (promptFile options)
              then contents <- loadFileSafe (opt_string (promptFile options)) ;;
                   ret (Some contents)
              else ret prompt0) ;;
  ret (if negb (opt_truthy prompt1) && (0 <? length (positional options))%nat
       then Some (join " " (positional options))
       else prompt1).

(** Lines 111-114. *)
Definition resolve_context (options : ParsedOptions) : M string :=
  let contextNotes := opt_string (context options) in
  if negb (nonempty contextNotes) && opt_truthy (contextFile options)
  then loadFileSafe (opt_string (contextFile options))
  else ret contextNotes.

(** [options.key || process.env.NAME || null]. *)
Definition key_or_env (flag : option string) (name : string) : value :=
  if opt_truthy flag then VStr (opt_string flag)
  else if opt_truthy (env w name) then VStr (opt_string (env w name))
  else VNull.

(** Lines 116-122. *)
Definition payload_of (options : ParsedOptions) (prompt contextNotes : string) : value :=
  VObj [("prompt", VStr (trim prompt));
        ("contextNotes", VStr (if nonempty contextNotes then trim contextNotes else ""));
        ("criticKey", key_or_env (criticKey options) "NEROVA_AGENT_CRITIC_KEY");
        ("assistantKey", key_or_env (assistantKey options) "NEROVA_AGENT_ASSISTANT_KEY");
        ("assistantId", key_or_env (assistantId options) "NEROVA_AGENT_ASSISTANT_ID")].

Definition request_failed (what : string) (err : exn) : M unit :=
  console_error [VStr what; message_or_err err] ;;
  (if truthy (err_data err)
   then console_error [VStr "Runtime response:"; err_data err]
   else ret tt) ;;
  process_exit 1.

Definition handleStart (options : ParsedOptions) : M unit :=
  resolved <- resolve_prompt options ;;
  match resolved with
  | Some prompt =>
      if nonempty prompt && nonempty (trim prompt) then
        contextNotes <- resolve_context options ;;
        let payload := payload_of options prompt contextNotes in
        requireAgentDaemon ;;
        try_catch
          (result <- callRuntime "/run/start" "POST" payload ;;
           renderRunResult result)
          (request_failed "Failed to start agent:")
      else
        console_error [VStr prompt_missing] ;;
        process_exit 1
  | None =>
      console_error [VStr prompt_missing] ;;
      process_exit 1
  end.

Definition handlePlaywrightLaunch : M unit :=
  requireAgentDaemon ;;
  try_catch
    (result <- callRuntime "/runtime/playwright/launch" "POST" VUndefined ;;
     console_log [VStr "Playwright ready:"; string_or_undefined (JSON_stringify result)])
    (request_failed "Failed to warm Playwright runtime:").

Definition handleStatus : M unit :=
  try_catch
    (result <- callRuntime "/healthz" "GET" VUndefined ;;
     console_log [VStr "Runtime status:"; string_or_undefined (JSON_stringify result)])
    (fun err =>
       console_error [VStr "Runtime not reachable:"; message_or_err err] ;;
       process_exit 1).

(** [main]: [args] is [process.argv.slice(2)].  For [agent-daemon] the
    daemon module is imported and runs in this process; what it does is its
    own. *)
Definition main (args : list string) : M unit :=
  let options := parseArgs (tl args) in
  match args with
  | [] => handleActivate
  | command :: _ =>
      if command =? "agent-daemon" then emit DaemonImport
      else if command =? "activate" then handleActivate
      else if command =? "playwright-launch" then handlePlaywrightLaunch
      else if command =? "start" then handleStart options
      else if command =? "status" then handleStatus
      else if command =? "help" then printHelp
      else if (command =? "--help") || (command =? "-h") then printHelp
      else
        console_error [VStr ("Unknown command: " ++ command)] ;;
        printHelp ;;
        process_exit 1
  end.

(** [main().catch(...)], the whole invocation from a fresh process. *)
Definition run (args : list string) : completion unit * process :=
  try_catch (main args)
    (fun err => console_error [err_value err] ;; process_exit 1)
    start_process.

End Commands.

(** ** The shape of a run result

    The data model of the specification, section 3: a RunResult and its
    TimelineEntry records, every field optional.  A field is absent when the
    property is missing or holds [null].  Where the data model names a field
    without a type (an action, a reason, an identifier) any scalar is
    admitted; the parsed and raw output of the assistant is any value. *)

Section Shapes.

Context {N : Number}.

Definition optional (shape : value -> bool) (v : value) : bool :=
  nullish v || shape v.

Definition is_str (v : value) : bool :=
  match v with VStr _ => true | _ => false end.

Definition is_bool (v : value) : bool :=
  match v with VBool _ => true | _ => false end.

Definition is_num (v : value) : bool :=
  match v with VNum _ => true | _ => false end.

Definition is_record (v : value) : bool :=
  match v with VObj _ => true | _ => false end.

Definition is_scalar (v : value) : bool :=
  match v with VArr _ | VObj _ => false | _ => true end.

Definition seq_of (shape : value -> bool) (v : value) : bool :=
  match v with VArr items => forallb shape items | _ => false end.

Definition Hints_shape (h : value) : bool :=
  is_record h
  && optional (seq_of is_str) (prop h "text_exact")
  && optional is_str (prop h "text_partial")
  && optional (seq_of is_str) (prop h "text_contains").

Definition Target_shape (t : value) : bool :=
  is_record t
  && is_scalar (prop t "reason")
  && optional Hints_shape (prop t "hints").

Definition Decision_shape (d : value) : bool :=
  is_record d
  && is_scalar (prop d "action")
  && is_scalar (prop d "reason")
  && is_scalar (prop d "summary")
  && optional Target_shape (prop d "target").

Definition Clicked_shape (c : value) : bool :=
  is_record c
  && is_scalar (prop c "name")
  && is_scalar (prop c "id")
  && is_scalar (prop c "hit_state").

Definition Result_shape (r : value) : bool :=
  is_record r
  && is_scalar (prop r "next")
  && is_scalar (prop r "reason")
  && optional Clicked_shape (prop r "clicked").

Definition TimelineEntry_shape (e : value) : bool :=
  is_record e
  && optional is_num (prop e "iteration")
  && optional Decision_shape (prop e "decision")
  && optional Result_shape (prop e "result")
  && optional is_record (prop e "assistant").

Definition Agent_shape (a : value) : bool :=
  is_record a && is_scalar (prop a "id").

Definition RunResult_shape (run : value) : bool :=
  is_record run
  && optional is_str (prop run "status")
  && optional is_bool (prop run "ok")
  && optional is_num (prop run "iterations")
  && optional Agent_shape (prop run "agent")
  && optional (seq_of TimelineEntry_shape) (prop run "timeline")
  && optional (seq_of is_str) (prop run "completeHistory").

(** Reading typed fields back: the strings of a sequence of strings and the
    string of a string, empty when absent. *)
Definition string_of (v : value) : string :=
  match v with VStr s => s | _ => "" end.

Definition strings_of (v : value) : list string :=
  match v with VArr items => map string_of items | _ => [] end.

(** The first non-empty string of a fallback chain. *)
Fixpoint first_nonempty (candidates : list string) : string :=
  match candidates with
  | [] => ""
  | s :: rest => if nonempty s then s else first_nonempty rest
  end.

(** The text of a scalar in a template literal. *)
Definition text (v : value) : string :=
  match ToString v with Some s => s | None => "" end.

Definition structured (v : value) : bool :=
  is_record v || Array_isArray v.

(** *** The report of the specification, section 4.4

    The lines of the report as the specification words them, over the typed
    fields; the theorems below compare them with what [renderRunResult]
    prints. *)

(** Step 2, a field being present when it holds a value: the status field
    if present, else [completed] if [ok] is truthy, else [unknown]. *)
Definition status_if_present (run : value) : value :=
  nullish_or (prop run "status")
    (if truthy (prop run "ok") then VStr "completed" else VStr "unknown").

(** Step 2, a field counting when it is truthy (a status that is not the
    empty string). *)
Definition status_if_truthy (run : value) : value :=
  or_else (prop run "status")
    (if truthy (prop run "ok") then VStr "completed" else VStr "unknown").

Definition empty_marker : event :=
  ConsoleLog [VStr "[nerovaagent] timeline: <empty>"].

(** Step 6: no line for [completed], the diagnostic for any other status. *)
Definition diagnostic (status : string) : event :=
  ConsoleError [VStr ("[nerovaagent] run finished with status " ++ status
                      ++ ". Inspect timeline for details.")].

Definition diagnostic_lines (status : value) : list event :=
  if is_string "completed" status then [] else [diagnostic (text status)].

Definition exit_code_of (status : value) : option Z :=
  if is_string "completed" status then None else Some 1%Z.

(** Step 4b: the joined [text_exact], else [text_partial], else the first
    element of [text_contains]; a line only for a label that is not empty. *)
Definition target_label_of (hints : value) : string :=
  first_nonempty
    [join " | " (strings_of (prop hints "text_exact"));
     string_of (prop hints "text_partial");
     hd "" (strings_of (prop hints "text_contains"))].

Definition target_lines (hints : value) : list event :=
  let label := target_label_of hints in
  if nonempty label then [ConsoleLog [VStr ("   target: " ++ label)]] else [].

(** Step 4c, the two lines. *)
Definition result_line (result : value) : event :=
  ConsoleLog [VStr ("   result: next=" ++ text (prop result "next")
                    ++ (if truthy (prop result "reason")
                        then " reason=" ++ text (prop result "reason")
                        else ""))].

Definition clicked_line (clicked : value) : event :=
  ConsoleLog [VStr ("   clicked: "
                    ++ text (or_else (prop clicked "name")
                               (or_else (prop clicked "id") (VStr "candidate")))
                    ++ " (state="
                    ++ text (or_else (prop clicked "hit_state") (VStr "n/a"))
                    ++ ")")].

(** Step 4c, [next] being present when it holds a value. *)
Definition result_lines_if_present (result : value) : list event :=
  if negb (nullish (prop result "next"))
     && negb (is_string "continue" (prop result "next"))
  then [result_line result]
  else if negb (nullish (prop result "clicked"))
       then [clicked_line (prop result "clicked")]
       else [].

(** Step 4c, [next] counting when it is truthy. *)
Definition result_lines_if_truthy (result : value) : list event :=
  if truthy (prop result "next")
     && negb (is_string "continue" (prop result "next"))
  then [result_line result]
  else if truthy (prop result "clicked")
       then [clicked_line (prop result "clicked")]
       else [].

(** Step 4a: iteration or [?], action or [none], and the first of reason,
    summary and target reason that is not empty. *)
Definition step_reason_of (decision : value) : value :=
  or_else (prop decision "reason")
    (or_else (prop decision "summary")
       (or_else (prop (prop decision "target") "reason") (VStr ""))).

Definition step_line (entry : value) : event :=
  let decision := prop entry "decision" in
  let reason := step_reason_of decision in
  ConsoleLog [VStr (" step " ++ text (nullish_or (prop entry "iteration") (VStr "?"))
                    ++ ": action=" ++ text (or_else (prop decision "action") (VStr "none"))
                    ++ (if truthy reason then " :: " ++ text reason else ""))].

(** Step 4d: the parsed value of the assistant, else its raw value,
    serialised unless it is a string. *)
Definition assistant_lines (assistant : value) : list event :=
  if truthy assistant then
    let parsed := or_else (prop assistant "parsed") (prop assistant "raw") in
    [ConsoleLog [VStr ("   assistant: "
                       ++ (if typeof parsed =? "string" then text parsed
                           else text (string_or_undefined (JSON_stringify parsed))))]]
  else [].

(** Step 4, one entry, with the lines of a decision target only where there
    is a target. *)
Definition entry_lines (entry : value) : list event :=
  let target := prop (prop entry "decision") "target" in
  step_line entry
  :: (if is_record target then target_lines (prop target "hints") else [])
  ++ result_lines_if_truthy (prop entry "result")
  ++ assistant_lines (prop entry "assistant").

(** Step 3. *)
Definition summary_of (run : value) (status : value) : event :=
  ConsoleLog [VStr ("[nerovaagent] status=" ++ text status
                    ++ " iterations=" ++ text (nullish_or (prop run "iterations") (VStr "n/a"))
                    ++ " agent="
                    ++ text (nullish_or (prop (prop run "agent") "id") (VStr "unknown")))].

(** Step 4 over the timeline, in order, and the marker of an empty one. *)
Definition timeline_lines (timeline : list value) : list event :=
  match timeline with
  | [] => [empty_marker]
  | _ => concat (map entry_lines timeline)
  end.

(** Step 5. *)
Definition history_lines (history : value) : list event :=
  match strings_of history with
  | [] => []
  | entries => [ConsoleLog [VStr (" complete history: " ++ join " | " entries)]]
  end.

Definition report_lines (run : value) : list event :=
  let status := status_if_truthy run in
  summary_of run status
  :: timeline_lines (timeline_of (prop run "timeline"))
  ++ history_lines (prop run "completeHistory")
  ++ diagnostic_lines status.

(** ** What a computation does to the process

    [emits m r evs ec]: from every state, [m] completes with [r] after
    appending the events [evs], and leaves [process.exitCode] alone
    ([ec = None]) or sets it ([ec = Some c]). *)

Definition extend (p : process) (evs : list event) (ec : option Z) : process :=
  {| events := events p ++ evs;
     exitCode := match ec with Some c => Some c | None => exitCode p end |}.

Definition emits {A} (m : M A) (r : completion A) (evs : list event) (ec : option Z) : Prop :=
  forall p, m p = (r, extend p evs ec).

(** A computation is uniform when what it does is the same from every
    state. *)
Definition uniform {A} (m : M A) : Prop :=
  exists r evs ec, emits m r evs ec.

(** [wp m Q]: [m] is uniform and [Q] holds of its completion, of the events
    it appends and of what it does to the exit code. *)
Definition wp {A} (m : M A)
    (Q : completion A -> list event -> option Z -> Prop) : Prop :=
  exists r evs ec, emits m r evs ec /\ Q r evs ec.

(** Later settings of the exit code win. *)
Definition then_ec (ec1 ec2 : option Z) : option Z :=
  match ec2 with Some c => Some c | None => ec1 end.

Definition is_request (ev : event) : bool :=
  match ev with ClientRequest _ _ _ => true | _ => false end.

Definition is_console_error (ev : event) : bool :=
  match ev with ConsoleError _ => true | _ => false end.

End Shapes.

(** ** The command line of the specification, section 4.1 *)

Definition recognized_flags : list string :=
  ["--prompt-file"; "--prompt"; "--context"; "--context-file";
   "--critic-key"; "--assistant-key"; "--assistant-id"].

Definition recognized (token : string) : bool :=
  existsb (String.eqb token) recognized_flags.

(** The field a recognized flag names. *)
Definition set_flag (flag v : string) (o : ParsedOptions) : ParsedOptions :=
  if flag =? "--prompt-file" then set_promptFile v o
  else if flag =? "--prompt" then set_prompt v o
  else if flag =? "--context" then set_context v o
  else if flag =? "--context-file" then set_contextFile v o
  else if flag =? "--critic-key" then set_criticKey v o
  else if flag =? "--assistant-key" then set_assistantKey v o
  else if flag =? "--assistant-id" then set_assistantId v o
  else o.

Definition push_all (tokens : list string) (o : ParsedOptions) : ParsedOptions :=
  fold_left (fun acc token => push_positional token acc) tokens o.

(** The reading of a command line, token by token from the left.  A
    recognized flag followed by a token that is not empty makes a pair with
    it, and the reading goes on after the pair; a token that is no
    recognized flag is positional; so is a recognized flag that is the last
    token or that is followed by the empty string, and the reading goes on
    with the token after it. *)
Inductive item : Type :=
| Pair (flag v : string)
| Token (token : string).

Inductive Reads : list string -> list item -> Prop :=
| Reads_end : Reads [] []
| Reads_pair flag v rest items :
    recognized flag = true -> nonempty v = true ->
    Reads rest items ->
    Reads (flag :: v :: rest) (Pair flag v :: items)
| Reads_token token rest items :
    recognized token = false ->
    Reads rest items ->
    Reads (token :: rest) (Token token :: items)
| Reads_last_flag flag :
    recognized flag = true ->
    Reads [flag] [Token flag]
| Reads_flag_empty flag rest items :
    recognized flag = true ->
    Reads (EmptyString :: rest) items ->
    Reads (flag :: EmptyString :: rest) (Token flag :: items).

(** The positional tokens of a reading, in order. *)
Fixpoint tokens_of (items : list item) : list string :=
  match items with
  | [] => []
  | Token token :: rest => token :: tokens_of rest
  | Pair _ _ :: rest => tokens_of rest
  end.

(** The value a flag ends with: that of its last pair, if it has one. *)
Fixpoint value_of (flag : string) (items : list item) : option string :=
  match items with
  | [] => None
  | Token _ :: rest => value_of flag rest
  | Pair f v :: rest =>
      match value_of flag rest with
      | Some later => Some later
      | None => if flag =? f then Some v else None
      end
  end.

(** A string that trims to nothing. *)
Definition blank (s : string) : bool := negb (nonempty (trim s)).

Section PromptSources.

Context {N : Number}.
Variable w : world.

(** The three sources of a prompt, each taken for itself: the value of
    [--prompt], the contents of the file of [--prompt-file], the positional
    tokens joined with a space. *)
Definition prompt_sources (options : ParsedOptions) : list string :=
  [opt_string (prompt options);
   match promptFile options with
   | Some path => match readFileSync w path with
                  | inl contents => contents
                  | inr _ => ""
                  end
   | None => ""
   end;
   join " " (positional options)].

(** No source yields a string that is not empty once trimmed. *)
Definition no_source_yields (options : ParsedOptions) : bool :=
  forallb blank (prompt_sources options).

(** The prompt file has to be read, there being no [--prompt] value, and
    cannot be read. *)
Definition prompt_file_unreadable (options : ParsedOptions) : bool :=
  negb (nonempty (opt_string (prompt options)))
  && match promptFile options with
     | Some path => match readFileSync w path with
                    | inl _ => false
                    | inr _ => true
                    end
     | None => false
     end.

End PromptSources.

Section StartOutcomes.

Context {N : Number}.
Variable w : world.

(** The line of a file that could not be read. *)
Definition read_failure (path : string) (err : exn) : event :=
  ConsoleError [VStr ("Failed to read " ++ path ++ ":"); message_or_err err].

(** The first truthy source, in the order flag, file, positional tokens:
    what the resolution of the prompt comes to, or the failure to read the
    prompt file. *)
Definition prompt_outcome (options : ParsedOptions)
    : completion (option string) * list event :=
  let joined_tokens :=
    if (0 <? length (positional options))%nat
    then Some (join " " (positional options)) else None in
  if opt_truthy (prompt options) then (Normal (prompt options), [])
  else if opt_truthy (promptFile options) then
    let path := opt_string (promptFile options) in
    match readFileSync w path with
    | inl contents =>
        (Normal (if nonempty contents then Some contents
                 else match joined_tokens with
                      | Some p => Some p
                      | None => Some contents
                      end), [])
    | inr err => (Exit 1%Z, [read_failure path err])
    end
  else (Normal (match joined_tokens with
                | Some p => Some p
                | None => prompt options
                end), []).

(** The context needs no file, or its file can be read. *)
Definition context_readable (options : ParsedOptions) : bool :=
  if negb (nonempty (opt_string (context options)))
     && opt_truthy (contextFile options)
  then match readFileSync w (opt_string (contextFile options)) with
       | inl _ => true
       | inr _ => false
       end
  else true.

(** [handleStart] gets as far as its gate: the prompt resolves to more than
    blanks and the context is readable. *)
Definition reaches_gate (options : ParsedOptions) : bool :=
  match prompt_outcome options with
  | (Normal (Some p), _) => negb (blank p) && context_readable options
  | _ => false
  end.

End StartOutcomes.

(** ** Concrete runs *)

Module Sample.

(** A machine with one prompt file, no environment variables and a runtime
    that answers every request with a completed run. *)
Definition machine (daemon : bool) : world :=
  {| env := fun _ => None;
     readFileSync := fun path =>
       if path =? "prompt.txt" then inl "b"
       else inr (Rejection (VObj [("message", VStr "ENOENT: no such file or directory")]));
     isAgentDaemonRunning := daemon;
     ensureAgentDaemon := fun _ => inl (VNum 4242%Z);
     client_origin := VStr "http://127.0.0.1:3333";
     client_request := fun _ _ _ =>
       inl (VObj [("status", VStr "completed"); ("iterations", VNum 1%Z);
                  ("timeline", VArr [])]) |}.

Definition failed_run : value :=
  VObj [("status", VStr "failed"); ("timeline", VArr [])].

Definition empty_status_run : value :=
  VObj [("status", VStr ""); ("ok", VBool true)].

Definition bare_run : value :=
  VObj [("timeline", VArr [VObj []; VObj [("decision", VNull); ("result", VObj [])]])].

Definition ok_cancel_entry : value :=
  VObj [("iteration", VNum 1%Z);
        ("decision",
         VObj [("action", VStr "click");
               ("target",
                VObj [("hints",
                       VObj [("text_exact", VArr [VStr "OK"; VStr "Cancel"]);
                             ("text_partial", VStr "O")])])])].

Definition continue_entry : value :=
  VObj [("iteration", VNum 2%Z);
        ("result",
         VObj [("next", VStr "continue"); ("reason", VStr "more to do");
               ("clicked", VObj [("id", VStr "btn-7")])])].

Definition empty_next_entry : value :=
  VObj [("result",
         VObj [("next", VStr ""); ("clicked", VObj [("name", VStr "Save")])])].

End Sample.

(** ** The request of the start flow *)

Section StartRequest.

Context {N : Number}.
Variable w : world.

(** The prompt and the context notes [handleStart] has in hand when it
    reaches its gate. *)
Definition resolved_prompt (options : ParsedOptions) : string :=
  match prompt_outcome w options with
  | (Normal (Some p), _) => p
  | _ => ""
  end.

Definition context_notes (options : ParsedOptions) : string :=
  if negb (nonempty (opt_string (context options)))
     && opt_truthy (contextFile options)
  then match readFileSync w (opt_string (contextFile options)) with
       | inl contents => contents
       | inr _ => ""
       end
  else opt_string (context options).

Definition start_payload (options : ParsedOptions) : value :=
  payload_of w options (resolved_prompt options) (context_notes options).

Definition start_request (options : ParsedOptions) : event :=
  ClientRequest "/run/start" "POST" (start_payload options).

(** The lines of a request that failed: the message, then the service-side
    payload when there is one. *)
Definition failure_lines (what : string) (err : exn) : list event :=
  ConsoleError [VStr what; message_or_err err]
  :: (if truthy (err_data err)
      then [ConsoleError [VStr "Runtime response:"; err_data err]]
      else []).

(** A credential of the payload: absent, or a string that is not empty. *)
Definition null_or_nonempty (v : value) : bool :=
  match v with
  | VNull => true
  | VStr s => nonempty s
  | _ => false
  end.

End StartRequest.

(** ** Observations on options and traces *)

(** The field a recognized flag names, read back. *)
Definition get_flag (flag : string) (o : ParsedOptions) : option string :=
  if flag =? "--prompt-file" then promptFile o
  else if flag =? "--prompt" then prompt o
  else if flag =? "--context" then context o
  else if flag =? "--context-file" then contextFile o
  else if flag =? "--critic-key" then criticKey o
  else if flag =? "--assistant-key" then assistantKey o
  else if flag =? "--assistant-id" then assistantId o
  else None.

(** [Subsequence l1 l2]: the elements of [l1] occur in [l2] in the same
    order. *)
Inductive Subsequence {A : Type} : list A -> list A -> Prop :=
| Subsequence_nil : Subsequence [] []
| Subsequence_skip x l1 l2 : Subsequence l1 l2 -> Subsequence l1 (x :: l2)
| Subsequence_keep x l1 l2 : Subsequence l1 l2 -> Subsequence (x :: l1) (x :: l2).

(** The first tokens [main] dispatches on. *)
Definition known_commands : list string :=
  ["agent-daemon"; "activate"; "playwright-launch"; "start"; "status";
   "help"; "--help"; "-h"].

Definition known_command (command : string) : bool :=
  existsb (String.eqb command) known_commands.

Section Observations.

Context {N : Number}.

Definition console_only (ev : event) : bool :=
  match ev with ConsoleLog _ | ConsoleError _ => true | _ => false end.

Definition is_probe (ev : event) : bool :=
  match ev with DaemonProbe => true | _ => false end.

Definition count_requests (evs : list event) : nat :=
  length (filter is_request evs).

(** The same machine with another file system. *)
Definition with_files (w : world) (files : string -> string + exn) : world :=
  {| env := env w;
     readFileSync := files;
     isAgentDaemonRunning := isAgentDaemonRunning w;
     ensureAgentDaemon := ensureAgentDaemon w;
     client_origin := client_origin w;
     client_request := client_request w |}.

(** A computation that stays within the console: it calls no collaborator,
    never ends the process, and touches the exit code only to set it
    to 1. *)
Definition quiet {A} (m : M A) : Prop :=
  wp m (fun r evs ec =>
          forallb console_only evs = true
          /\ (ec = None \/ ec = Some 1%Z)
          /\ (forall c, r <> Exit c)).

(** A computation that issues at most [n] requests, ends the process with
    no code but 1 and sets no exit code but 1. *)
Definition bounded {A} (n : nat) (m : M A) : Prop :=
  wp m (fun r evs ec =>
          (count_requests evs <= n)%nat
          /\ (ec = None \/ ec = Some 1%Z)
          /\ (forall c, r = Exit c -> c = 1%Z)).

End Observations.

(** ** More concrete machines *)

Module Fixture.

(** A machine whose runtime rejects every request, with a service-side
    payload. *)
Definition rejecting_machine : world :=
  {| env := fun _ => None;
     readFileSync := fun _ => inr (Rejection (VObj [("message", VStr "ENOENT")]));
     isAgentDaemonRunning := true;
     ensureAgentDaemon := fun _ => inr (Rejection (VObj [("message", VStr "spawn failed")]));
     client_origin := VStr "http://127.0.0.1:3333";
     client_request := fun _ _ _ =>
       inr (Rejection (VObj [("message", VStr "connect ECONNREFUSED");
                             ("data", VObj [("error", VStr "busy")])])) |}.

(** A machine whose runtime answers with a timeline that holds [null]. *)
Definition broken_machine : world :=
  {| env := fun name => if name =? "NEROVA_AGENT_CRITIC_KEY" then Some "sk-env" else None;
     readFileSync := fun _ => inl "notes";
     isAgentDaemonRunning := true;
     ensureAgentDaemon := fun _ => inl (VNum 7%Z);
     client_origin := VStr "http://127.0.0.1:3333";
     client_request := fun _ _ _ =>
       inl (VObj [("status", VStr "failed"); ("timeline", VArr [VNull])]) |}.

Definition other_files : string -> string + exn :=
  fun _ => inl "something else".

End Fixture.

(** * Properties *)

(** ** The process monad *)

Section ProcessFacts.

Context {N : Number}.

Lemma extend_nil (p : process) : extend p [] None = p.
Proof. destruct p; unfold extend; simpl. now rewrite app_nil_r. Qed.

Lemma extend_extend (p : process) e1 c1 e2 c2 :
  extend (extend p e1 c1) e2 c2 = extend p (e1 ++ e2) (then_ec c1 c2).
Proof.
  unfold extend; simpl. rewrite app_assoc.
  destruct c1, c2; reflexivity.
Qed.

Lemma then_ec_None_l ec : then_ec None ec = ec.
Proof. now destruct ec. Qed.

Lemma emits_ret {A} (a : A) : emits (ret a) (Normal a) [] None.
Proof. intro p. unfold ret. now rewrite extend_nil. Qed.

Lemma emits_throw {A} (e : exn) : emits (@throw _ A e) (Throw e) [] None.
Proof. intro p. unfold throw. now rewrite extend_nil. Qed.

Lemma emits_exit {A} (c : Z) : emits (@process_exit _ A c) (Exit c) [] None.
Proof. intro p. unfold process_exit. now rewrite extend_nil. Qed.

Lemma emits_emit (ev : event) : emits (emit ev) (Normal tt) [ev] None.
Proof. intro p. reflexivity. Qed.

Lemma emits_set_exitCode (c : Z) : emits (set_exitCode c) (Normal tt) [] (Some c).
Proof. intro p. unfold set_exitCode, extend. now rewrite app_nil_r. Qed.

Lemma emits_bind {A B} (m : M A) (k : A -> M B) a e1 c1 r e2 c2 :
  emits m (Normal a) e1 c1 ->
  emits (k a) r e2 c2 ->
  emits (bind m k) r (e1 ++ e2) (then_ec c1 c2).
Proof.
  intros Hm Hk p. unfold bind. rewrite Hm, Hk. now rewrite extend_extend.
Qed.

Lemma emits_bind_throw {A B} (m : M A) (k : A -> M B) e e1 c1 :
  emits m (Throw e) e1 c1 -> emits (bind m k) (Throw e) e1 c1.
Proof. intros Hm p. unfold bind. now rewrite Hm. Qed.

Lemma emits_bind_exit {A B} (m : M A) (k : A -> M B) c e1 c1 :
  emits m (Exit c) e1 c1 -> emits (bind m k) (Exit c) e1 c1.
Proof. intros Hm p. unfold bind. now rewrite Hm. Qed.

Lemma emits_try_normal {A} (m : M A) h a e1 c1 :
  emits m (Normal a) e1 c1 -> emits (try_catch m h) (Normal a) e1 c1.
Proof. intros Hm p. unfold try_catch. now rewrite Hm. Qed.

Lemma emits_try_exit {A} (m : M A) h c e1 c1 :
  emits m (Exit c) e1 c1 -> emits (try_catch m h) (Exit c) e1 c1.
Proof. intros Hm p. unfold try_catch. now rewrite Hm. Qed.

Lemma emits_try_throw {A} (m : M A) h e e1 c1 r e2 c2 :
  emits m (Throw e) e1 c1 ->
  emits (h e) r e2 c2 ->
  emits (try_catch m h) r (e1 ++ e2) (then_ec c1 c2).
Proof.
  intros Hm Hh p. unfold try_catch. rewrite Hm, Hh. now rewrite extend_extend.
Qed.

(** The events and the exit code a computation adds are determined. *)
Lemma emits_events_unique {A} (m : M A) r e c r' e' c' :
  emits m r e c -> emits m r' e' c' -> r = r' /\ e = e' /\ c = c'.
Proof.
  intros H H'.
  pose proof (H start_process) as H0. rewrite (H' start_process) in H0.
  unfold extend, start_process in H0; simpl in H0.
  injection H0 as Hr He Hc. subst r' e'.
  split; [reflexivity | split; [reflexivity |]].
  destruct c, c'; congruence.
Qed.

Lemma uniform_ret {A} (a : A) : uniform (ret a).
Proof. do 3 eexists. apply emits_ret. Qed.

Lemma uniform_throw {A} (e : exn) : uniform (@throw _ A e).
Proof. do 3 eexists. apply emits_throw. Qed.

Lemma uniform_emit (ev : event) : uniform (emit ev).
Proof. do 3 eexists. apply emits_emit. Qed.

Lemma uniform_set_exitCode (c : Z) : uniform (set_exitCode c).
Proof. do 3 eexists. apply emits_set_exitCode. Qed.

Lemma uniform_bind {A B} (m : M A) (k : A -> M B) :
  uniform m -> (forall a, uniform (k a)) -> uniform (bind m k).
Proof.
  intros (r & e1 & c1 & Hm) Hk. destruct r as [a | e | c].
  - destruct (Hk a) as (r & e2 & c2 & Ha).
    do 3 eexists. eapply emits_bind; eassumption.
  - do 3 eexists. apply emits_bind_throw. eassumption.
  - do 3 eexists. apply emits_bind_exit. eassumption.
Qed.

Lemma uniform_for_of {A} (items : list A) (body : A -> M unit) :
  (forall x, uniform (body x)) -> uniform (for_of items body).
Proof.
  intros Hbody. induction items as [| x rest IH]; simpl.
  - apply uniform_ret.
  - apply uniform_bind; [apply Hbody | intros _; exact IH].
Qed.

Lemma uniform_Get (v : value) (key : string) : uniform (Get v key).
Proof. unfold Get. destruct (nullish v); [apply uniform_throw | apply uniform_ret]. Qed.

Lemma uniform_str (v : value) : uniform (str v).
Proof. unfold str. destruct (ToString v); [apply uniform_ret | apply uniform_throw]. Qed.

Lemma uniform_joined sep (items : list value) : uniform (joined sep items).
Proof.
  unfold joined. destruct (Array_join sep items); [apply uniform_ret | apply uniform_throw].
Qed.

End ProcessFacts.

(** ** The renderer reads nothing of the process *)

Ltac uniform_step :=
  match goal with
  | |- uniform (bind _ _) => apply uniform_bind; [| intros ?]
  | |- uniform (ret _) => apply uniform_ret
  | |- uniform (throw _) => apply uniform_throw
  | |- uniform (Get _ _) => apply uniform_Get
  | |- uniform (str _) => apply uniform_str
  | |- uniform (joined _ _) => apply uniform_joined
  | |- uniform (console_log _) => apply uniform_emit
  | |- uniform (console_error _) => apply uniform_emit
  | |- uniform (emit _) => apply uniform_emit
  | |- uniform (set_exitCode _) => apply uniform_set_exitCode
  | |- uniform (for_of _ _) => apply uniform_for_of; intros ?
  | |- uniform (if ?b then _ else _) => destruct b
  | |- uniform (match ?v with _ => _ end) => destruct v
  end.

Ltac uniform_auto := cbv zeta; repeat uniform_step.

Section RendererUniform.

Context {N : Number}.

Lemma uniform_effective_status run : uniform (effective_status run).
Proof. unfold effective_status. uniform_auto. Qed.

Lemma uniform_summary_line run status : uniform (summary_line run status).
Proof. unfold summary_line. uniform_auto. Qed.

Lemma uniform_step_reason decision : uniform (step_reason decision).
Proof. unfold step_reason. uniform_auto. Qed.

Lemma uniform_target_label target : uniform (target_label target).
Proof. unfold target_label. uniform_auto. Qed.

Lemma uniform_render_target decision : uniform (render_target decision).
Proof.
  unfold render_target. uniform_auto. apply uniform_target_label.
Qed.

Lemma uniform_render_result entry : uniform (render_result entry).
Proof. unfold render_result. uniform_auto. Qed.

Lemma uniform_render_assistant entry : uniform (render_assistant entry).
Proof. unfold render_assistant. uniform_auto. Qed.

Lemma uniform_render_entry entry : uniform (render_entry entry).
Proof.
  unfold render_entry. uniform_auto;
    first [ apply uniform_step_reason | apply uniform_render_target
          | apply uniform_render_result | apply uniform_render_assistant ].
Qed.

Lemma uniform_exit_decision status : uniform (exit_decision status).
Proof. unfold exit_decision. uniform_auto. Qed.

Lemma uniform_renderRunResult run : uniform (renderRunResult run).
Proof.
  unfold renderRunResult. uniform_auto;
    first [ apply uniform_effective_status | apply uniform_summary_line
          | apply uniform_render_entry | apply uniform_exit_decision ].
Qed.

End RendererUniform.

(** ** Reasoning about a computation by its outcome *)

Section Outcomes.

Context {N : Number}.

Lemma wp_ret {A} (a : A) Q : Q (Normal a) [] None -> wp (ret a) Q.
Proof. intros HQ. exists (Normal a), [], None. split; [apply emits_ret | exact HQ]. Qed.

Lemma wp_throw {A} (e : exn) Q : Q (Throw e) [] None -> wp (@throw _ A e) Q.
Proof. intros HQ. exists (Throw e), [], None. split; [apply emits_throw | exact HQ]. Qed.

Lemma wp_exit {A} (c : Z) Q : Q (Exit c) [] None -> wp (@process_exit _ A c) Q.
Proof. intros HQ. exists (Exit c), [], None. split; [apply emits_exit | exact HQ]. Qed.

Lemma wp_emit (ev : event) Q : Q (Normal tt) [ev] None -> wp (emit ev) Q.
Proof. intros HQ. exists (Normal tt), [ev], None. split; [apply emits_emit | exact HQ]. Qed.

Lemma wp_set_exitCode (c : Z) Q : Q (Normal tt) [] (Some c) -> wp (set_exitCode c) Q.
Proof.
  intros HQ. exists (Normal tt), [], (Some c). split; [apply emits_set_exitCode | exact HQ].
Qed.

Lemma wp_bind {A B} (m : M A) (k : A -> M B)
    (Q : completion B -> list event -> option Z -> Prop) :
  wp m (fun r e1 c1 =>
          match r with
          | Normal a => wp (k a) (fun r' e2 c2 => Q r' (e1 ++ e2)%list (then_ec c1 c2))
          | Throw e => Q (Throw e) e1 c1
          | Exit c => Q (Exit c) e1 c1
          end) ->
  wp (bind m k) Q.
Proof.
  intros (r & e1 & c1 & Hm & H). destruct r as [a | e | c].
  - destruct H as (r' & e2 & c2 & Hk & HQ).
    exists r', (e1 ++ e2)%list, (then_ec c1 c2). split; [| exact HQ].
    eapply emits_bind; eassumption.
  - exists (Throw e), e1, c1. split; [| exact H]. now apply emits_bind_throw.
  - exists (Exit c), e1, c1. split; [| exact H]. now apply emits_bind_exit.
Qed.

Lemma wp_try_catch {A} (m : M A) (h : exn -> M A)
    (Q : completion A -> list event -> option Z -> Prop) :
  wp m (fun r e1 c1 =>
          match r with
          | Throw e => wp (h e) (fun r' e2 c2 => Q r' (e1 ++ e2)%list (then_ec c1 c2))
          | r => Q r e1 c1
          end) ->
  wp (try_catch m h) Q.
Proof.
  intros (r & e1 & c1 & Hm & H). destruct r as [a | e | c].
  - exists (Normal a), e1, c1. split; [| exact H]. now apply emits_try_normal.
  - destruct H as (r' & e2 & c2 & Hh & HQ).
    exists r', (e1 ++ e2)%list, (then_ec c1 c2). split; [| exact HQ].
    eapply emits_try_throw; eassumption.
  - exists (Exit c), e1, c1. split; [| exact H]. now apply emits_try_exit.
Qed.

Lemma wp_conseq {A} (m : M A) (Q Q' : completion A -> list event -> option Z -> Prop) :
  wp m Q -> (forall r e c, Q r e c -> Q' r e c) -> wp m Q'.
Proof. intros (r & e & c & Hm & HQ) H. exists r, e, c. auto. Qed.

Lemma wp_emits {A} (m : M A) r evs ec :
  wp m (fun r' e c => r' = r /\ e = evs /\ c = ec) -> emits m r evs ec.
Proof. intros (r' & e & c & Hm & -> & -> & ->). exact Hm. Qed.

Lemma emits_wp {A} (m : M A) r evs ec Q :
  emits m r evs ec -> Q r evs ec -> wp m Q.
Proof. intros Hm HQ. exists r, evs, ec. auto. Qed.

Lemma wp_Get (v : value) (key : string) Q :
  nullish v = false -> Q (Normal (prop v key)) [] None -> wp (Get v key) Q.
Proof. intros Hv HQ. unfold Get. rewrite Hv. now apply wp_ret. Qed.

Lemma wp_str (v : value) s Q :
  ToString v = Some s -> Q (Normal s) [] None -> wp (str v) Q.
Proof. intros Hv HQ. unfold str. rewrite Hv. now apply wp_ret. Qed.

Lemma wp_joined sep (items : list value) s Q :
  Array_join sep items = Some s -> Q (Normal s) [] None -> wp (joined sep items) Q.
Proof. intros Hv HQ. unfold joined. rewrite Hv. now apply wp_ret. Qed.

End Outcomes.

Ltac wp_step :=
  lazymatch goal with
  | |- wp (bind _ _) _ => apply wp_bind
  | |- wp (ret _) _ => apply wp_ret
  | |- wp (Get _ _) _ => apply wp_Get; [first [reflexivity | eassumption] |]
  | |- wp (str _) _ => eapply wp_str; [first [reflexivity | eassumption] |]
  | |- wp (joined _ _) _ => eapply wp_joined; [first [reflexivity | eassumption] |]
  | |- wp (console_log _) _ => apply wp_emit
  | |- wp (console_error _) _ => apply wp_emit
  | |- wp (emit _) _ => apply wp_emit
  | |- wp (set_exitCode _) _ => apply wp_set_exitCode
  | |- wp (process_exit _) _ => apply wp_exit
  | |- wp (throw _) _ => apply wp_throw
  end; cbv beta iota.

Ltac wp_run := repeat wp_step.

(** ** The renderer on a well-shaped run result *)

Section RendererShapes.

Context {N : Number}.

Lemma ToString_scalar (v : value) : is_scalar v = true -> ToString v = Some (text v).
Proof. destruct v as [| | [|] | | | |]; simpl; intros H; try discriminate; reflexivity. Qed.

Lemma is_scalar_or_else (a b : value) :
  is_scalar a = true -> is_scalar b = true -> is_scalar (or_else a b) = true.
Proof. unfold or_else. now destruct (truthy a). Qed.

Lemma is_scalar_nullish_or (a b : value) :
  is_scalar a = true -> is_scalar b = true -> is_scalar (nullish_or a b) = true.
Proof. unfold nullish_or. now destruct (nullish a). Qed.

Lemma optional_scalar (shape : value -> bool) (v : value) :
  (forall x, shape x = true -> is_scalar x = true) ->
  optional shape v = true -> is_scalar v = true.
Proof.
  unfold optional. intros Hs H. apply orb_prop in H as [H | H]; [| auto].
  destruct v; simpl in *; congruence.
Qed.

Lemma items_toString_strings (items : list value) :
  forallb is_str items = true -> items_toString items = Some (map string_of items).
Proof.
  induction items as [| x rest IH]; simpl; [reflexivity |].
  intros H. apply andb_prop in H as [Hx Hrest].
  destruct x; simpl in Hx; try discriminate.
  unfold item_toString; simpl. now rewrite IH.
Qed.

Lemma Array_join_strings sep (items : list value) :
  forallb is_str items = true ->
  Array_join sep items = Some (join sep (map string_of items)).
Proof. intros H. unfold Array_join. now rewrite items_toString_strings. Qed.

Lemma wp_str_scalar (v : value) Q :
  is_scalar v = true -> Q (Normal (text v)) [] None -> wp (str v) Q.
Proof. intros Hv HQ. eapply wp_str; [now apply ToString_scalar | exact HQ]. Qed.

Lemma nullish_or_else_record (v : value) :
  nullish (or_else v (VObj [])) = false.
Proof.
  unfold or_else. destruct (truthy v) eqn:E; [| reflexivity].
  destruct v; simpl in *; congruence.
Qed.

(** The fields of an optional record, read through [v || {}]. *)
Lemma prop_or_else_record (v : value) key :
  optional is_record v = true ->
  prop (or_else v (VObj [])) key = prop v key.
Proof. destruct v; simpl; intros H; try discriminate; reflexivity. Qed.

(** The fields of optional hints. *)
Lemma Hints_fields (h : value) :
  optional Hints_shape h = true ->
  optional is_record h = true
  /\ optional (seq_of is_str) (prop h "text_exact") = true
  /\ optional is_str (prop h "text_partial") = true
  /\ optional (seq_of is_str) (prop h "text_contains") = true.
Proof.
  unfold optional at 1. intros H. apply orb_prop in H as [H | H].
  - destruct h; simpl in H; try discriminate; repeat split; reflexivity.
  - unfold Hints_shape in H.
    repeat (apply andb_prop in H as [H ?]).
    repeat split; try assumption. unfold optional. rewrite H. apply orb_true_r.
Qed.

Lemma label_of_fields (te tp tc : value) :
  optional (seq_of is_str) te = true ->
  optional is_str tp = true ->
  optional (seq_of is_str) tc = true ->
  or_else (VStr (join " | " (strings_of te)))
    (if truthy tp then tp
     else or_else (match tc with
                   | VArr items => first_item items
                   | _ => VBool false
                   end) (VStr ""))
  = VStr (first_nonempty [join " | " (strings_of te); string_of tp;
                          hd "" (strings_of tc)]).
Proof.
  intros Hte Htp Htc. unfold or_else at 1. simpl.
  destruct (nonempty (join " | " (strings_of te))); [reflexivity |].
  destruct tp as [| | | | s | |]; simpl in Htp; try discriminate; simpl.
  3: destruct s; simpl; [| reflexivity].
  all: destruct tc as [| | | | | [| x rest] |]; simpl in Htc; try discriminate;
    simpl; try reflexivity;
    destruct x; simpl in Htc; try discriminate;
    unfold or_else; simpl; destruct s; reflexivity.
Qed.

Lemma exact_of_field (te : value) Q :
  optional (seq_of is_str) te = true ->
  Q (Normal (join " | " (strings_of te))) [] None ->
  wp (match te with VArr items => joined " | " items | _ => ret "" end) Q.
Proof.
  intros Hte HQ. destruct te as [| | | | | exact |]; simpl in Hte; try discriminate.
  - now apply wp_ret.
  - now apply wp_ret.
  - eapply wp_joined; [apply Array_join_strings; exact Hte | exact HQ].
Qed.

Lemma emits_target_label (target : value) :
  is_record target = true ->
  optional Hints_shape (prop target "hints") = true ->
  emits (target_label target) (Normal (VStr (target_label_of (prop target "hints")))) [] None.
Proof.
  intros Ht Hh. apply wp_emits. unfold target_label. cbv zeta.
  assert (Hn : nullish target = false) by (destruct target; simpl in *; congruence).
  remember (prop target "hints") as h eqn:Eh.
  destruct (Hints_fields h Hh) as (Hrec & Hte & Htp & Htc).
  pose proof (nullish_or_else_record h) as Hnh.
  rewrite <- (prop_or_else_record h "text_exact") in Hte by assumption.
  rewrite <- (prop_or_else_record h "text_partial") in Htp by assumption.
  rewrite <- (prop_or_else_record h "text_contains") in Htc by assumption.
  unfold target_label_of.
  rewrite <- (prop_or_else_record h "text_exact") by assumption.
  rewrite <- (prop_or_else_record h "text_partial") by assumption.
  rewrite <- (prop_or_else_record h "text_contains") by assumption.
  rewrite <- label_of_fields by assumption.
  wp_step. wp_step. rewrite <- Eh.
  wp_step. wp_step. wp_step.
  apply exact_of_field; [assumption |].
  wp_step. wp_step. wp_step.
  destruct (truthy (prop (or_else h (VObj [])) "text_partial")); wp_run;
    repeat split; reflexivity.
Qed.

Lemma Get_opt_prop (v : value) key : Get_opt v key = prop v key.
Proof. unfold Get_opt. destruct v; reflexivity. Qed.

Lemma record_not_nullish (v : value) : is_record v = true -> nullish v = false.
Proof. destruct v; simpl; congruence. Qed.

Lemma optional_record_truthy (shape : value -> bool) (v : value) :
  (forall x, shape x = true -> is_record x = true) ->
  optional shape v = true -> truthy v = is_record v.
Proof.
  intros Hs H. unfold optional in H. apply orb_prop in H as [H | H].
  - destruct v; simpl in *; congruence.
  - apply Hs in H. destruct v; simpl in *; congruence.
Qed.

Lemma Target_record t : Target_shape t = true -> is_record t = true.
Proof. unfold Target_shape. intros H. now repeat (apply andb_prop in H as [H ?]). Qed.

Lemma emits_render_target (decision : value) :
  nullish decision = false ->
  optional Target_shape (prop decision "target") = true ->
  emits (render_target decision) (Normal tt)
    (if is_record (prop decision "target")
     then target_lines (prop (prop decision "target") "hints") else [])
    None.
Proof.
  intros Hd Ht. apply wp_emits. unfold render_target.
  wp_step. wp_step.
  remember (prop decision "target") as t eqn:Et. clear Et.
  pose proof (optional_record_truthy _ _ Target_record Ht) as Htruthy.
  unfold optional in Ht. apply orb_prop in Ht as [Ht | Ht].
  - destruct t; simpl in Ht; try discriminate; simpl; wp_run; now repeat split.
  - pose proof (Target_record _ Ht) as Hrec. rewrite Hrec.
    unfold Target_shape in Ht. repeat (apply andb_prop in Ht as [Ht ?]).
    rewrite Htruthy, Hrec.
    replace (typeof t =? "object") with true by (destruct t; simpl in *; congruence).
    simpl andb. cbv iota.
    wp_step. eapply emits_wp; [now apply emits_target_label |]. cbv beta iota.
    unfold target_lines. simpl truthy.
    destruct (nonempty (target_label_of (prop t "hints"))); wp_run; now repeat split.
Qed.

Lemma Clicked_record c : Clicked_shape c = true -> is_record c = true.
Proof. unfold Clicked_shape. intros H. now repeat (apply andb_prop in H as [H ?]). Qed.

Lemma Result_record r : Result_shape r = true -> is_record r = true.
Proof. unfold Result_shape. intros H. now repeat (apply andb_prop in H as [H ?]). Qed.

Lemma Decision_record d : Decision_shape d = true -> is_record d = true.
Proof. unfold Decision_shape. intros H. now repeat (apply andb_prop in H as [H ?]). Qed.

Lemma optional_is_record (shape : value -> bool) (v : value) :
  (forall x, shape x = true -> is_record x = true) ->
  optional shape v = true -> optional is_record v = true.
Proof.
  intros Hs H. unfold optional in *. apply orb_prop in H as [H | H].
  - now rewrite H.
  - rewrite (Hs _ H). apply orb_true_r.
Qed.

Lemma is_scalar_undefined_prop (v : value) key :
  nullish v = true -> is_scalar (prop v key) = true.
Proof. destruct v; simpl; congruence. Qed.

(** The fields of an optional result. *)
Lemma Result_fields (r : value) :
  optional Result_shape r = true ->
  is_scalar (prop r "next") = true
  /\ is_scalar (prop r "reason") = true
  /\ optional Clicked_shape (prop r "clicked") = true.
Proof.
  unfold optional at 1. intros H. apply orb_prop in H as [H | H].
  - destruct r; simpl in H; try discriminate; repeat split; reflexivity.
  - unfold Result_shape in H. repeat (apply andb_prop in H as [H ?]). auto.
Qed.

Lemma emits_clicked (clicked : value) :
  Clicked_shape clicked = true ->
  emits (name <- Get clicked "name" ;;
         who <- (if truthy name then ret name else
                 id <- Get clicked "id" ;;
                 ret (or_else id (VStr "candidate"))) ;;
         s_who <- str who ;;
         hit_state <- Get clicked "hit_state" ;;
         s_state <- str (or_else hit_state (VStr "n/a")) ;;
         console_log [VStr ("   clicked: " ++ s_who ++ " (state=" ++ s_state ++ ")")])
    (Normal tt) [clicked_line clicked] None.
Proof.
  intros Hc. pose proof (record_not_nullish _ (Clicked_record _ Hc)) as Hn.
  unfold Clicked_shape in Hc. repeat (apply andb_prop in Hc as [Hc ?]).
  apply wp_emits. unfold clicked_line.
  wp_step. wp_step. wp_step.
  destruct (truthy (prop clicked "name")) eqn:Ename.
  - wp_step. wp_step. apply wp_str_scalar; [assumption |]. cbv beta iota.
    wp_step. wp_step. wp_step.
    apply wp_str_scalar; [apply is_scalar_or_else; auto |]. cbv beta iota.
    wp_run. repeat split. unfold or_else. now rewrite Ename.
  - wp_step. wp_step. wp_step. wp_step.
    apply wp_str_scalar; [apply is_scalar_or_else; auto |]. cbv beta iota.
    wp_step. wp_step. wp_step.
    apply wp_str_scalar; [apply is_scalar_or_else; auto |]. cbv beta iota.
    wp_run. repeat split. unfold or_else. now rewrite Ename.
Qed.

Lemma emits_render_result (entry : value) :
  nullish entry = false ->
  optional Result_shape (prop entry "result") = true ->
  emits (render_result entry) (Normal tt)
    (result_lines_if_truthy (prop entry "result")) None.
Proof.
  intros He Hr. apply wp_emits. unfold render_result. cbv zeta.
  wp_step. wp_step.
  remember (prop entry "result") as r eqn:Er. clear Er.
  destruct (Result_fields r Hr) as (Hnext & Hreason & Hclicked).
  pose proof (optional_is_record _ _ Result_record Hr) as Hrec.
  pose proof (nullish_or_else_record r) as Hn.
  unfold result_lines_if_truthy, result_line.
  rewrite <- (prop_or_else_record r "next") in * by assumption.
  rewrite <- (prop_or_else_record r "reason") in * by assumption.
  rewrite <- (prop_or_else_record r "clicked") in * by assumption.
  remember (or_else r (VObj [])) as result eqn:Eres. clear Eres Hr Hrec r.
  wp_step. wp_step.
  destruct (truthy (prop result "next") && negb (is_string "continue" (prop result "next"))).
  - wp_step. apply wp_str_scalar; [assumption |]. cbv beta iota.
    wp_step. wp_step. wp_step.
    destruct (truthy (prop result "reason")).
    + wp_step. apply wp_str_scalar; [assumption |]. cbv beta iota.
      wp_run. now repeat split.
    + wp_run. now repeat split.
  - wp_step. wp_step.
    rewrite (optional_record_truthy _ _ Clicked_record Hclicked).
    unfold optional in Hclicked. apply orb_prop in Hclicked as [Hc | Hc].
    + replace (is_record (prop result "clicked")) with false
        by (destruct (prop result "clicked"); simpl in *; congruence).
      wp_run. now repeat split.
    + rewrite (Clicked_record _ Hc).
      eapply emits_wp; [now apply emits_clicked |]. now repeat split.
Qed.

Lemma typeof_string_scalar (v : value) :
  (typeof v =? "string") = true -> is_scalar v = true.
Proof. destruct v; simpl; intros H; try reflexivity; discriminate. Qed.

Lemma is_scalar_string_or_undefined (o : option string) :
  is_scalar (string_or_undefined o) = true.
Proof. now destruct o. Qed.

Lemma emits_render_assistant (entry : value) :
  nullish entry = false ->
  optional is_record (prop entry "assistant") = true ->
  emits (render_assistant entry) (Normal tt)
    (assistant_lines (prop entry "assistant")) None.
Proof.
  intros He Ha. apply wp_emits. unfold render_assistant, assistant_lines. cbv zeta.
  wp_run.
  remember (prop entry "assistant") as a eqn:Ea. clear Ea.
  rewrite (optional_record_truthy is_record a (fun x H => H) Ha).
  unfold optional in Ha. apply orb_prop in Ha as [Ha | Ha].
  - replace (is_record a) with false by (destruct a; simpl in *; congruence).
    wp_run. now repeat split.
  - rewrite Ha. pose proof (record_not_nullish _ Ha) as Hn.
    wp_run.
    assert (Hparsed : wp (if truthy (prop a "parsed") then ret (prop a "parsed")
                          else Get a "raw")
              (fun r e c => r = Normal (or_else (prop a "parsed") (prop a "raw"))
                            /\ e = [] /\ c = None)).
    { unfold or_else. destruct (truthy (prop a "parsed")); wp_run; now repeat split. }
    eapply wp_conseq; [exact Hparsed |]. clear Hparsed.
    intros r e c (-> & -> & ->).
    remember (or_else (prop a "parsed") (prop a "raw")) as parsed eqn:Ep. clear Ep.
    wp_run.
    destruct (typeof parsed =? "string") eqn:Et.
    + apply wp_str_scalar; [now apply typeof_string_scalar |]. cbv beta iota.
      wp_run. now repeat split.
    + apply wp_str_scalar; [apply is_scalar_string_or_undefined |]. cbv beta iota.
      wp_run. now repeat split.
Qed.

(** The fields of an optional decision. *)
Lemma Decision_fields (d : value) :
  optional Decision_shape d = true ->
  is_scalar (prop d "action") = true
  /\ is_scalar (prop d "reason") = true
  /\ is_scalar (prop d "summary") = true
  /\ optional Target_shape (prop d "target") = true
  /\ is_scalar (prop (prop d "target") "reason") = true.
Proof.
  unfold optional at 1. intros H. apply orb_prop in H as [H | H].
  - destruct d; simpl in H; try discriminate; repeat split; reflexivity.
  - unfold Decision_shape in H. repeat (apply andb_prop in H as [H ?]).
    repeat split; try assumption.
    match goal with Ht : optional Target_shape _ = true |- _ =>
      unfold optional in Ht; apply orb_prop in Ht as [Ht | Ht] end.
    + now apply is_scalar_undefined_prop.
    + unfold Target_shape in H0. now repeat (apply andb_prop in H0 as [H0 ?]).
Qed.

Lemma emits_step_reason (decision : value) :
  nullish decision = false ->
  emits (step_reason decision) (Normal (step_reason_of decision)) [] None.
Proof.
  intros Hd. apply wp_emits. unfold step_reason, step_reason_of.
  rewrite !Get_opt_prop.
  wp_run.
  destruct (truthy (prop decision "reason")) eqn:E1.
  - wp_run. repeat split. unfold or_else. now rewrite E1.
  - wp_run. destruct (truthy (prop decision "summary")) eqn:E2.
    + wp_run. repeat split. unfold or_else. now rewrite E1, E2.
    + wp_run. repeat split. unfold or_else. now rewrite E1, E2.
Qed.

Lemma is_scalar_step_reason (d : value) :
  optional Decision_shape d = true -> is_scalar (step_reason_of d) = true.
Proof.
  intros H. destruct (Decision_fields d H) as (_ & Hr & Hs & _ & Ht).
  unfold step_reason_of. repeat apply is_scalar_or_else; auto.
Qed.

Lemma emits_render_entry (entry : value) :
  TimelineEntry_shape entry = true ->
  emits (render_entry entry) (Normal tt) (entry_lines entry) None.
Proof.
  intros H. unfold TimelineEntry_shape in H.
  repeat (apply andb_prop in H as [H ?]).
  pose proof (record_not_nullish _ H) as Hn.
  match goal with Hd : optional Decision_shape _ = true |- _ =>
    pose proof (Decision_fields _ Hd) as (Ha & Hr & Hs & Ht & Htr);
    pose proof (is_scalar_step_reason _ Hd) as Hsr;
    pose proof (optional_is_record _ _ Decision_record Hd) as Hdrec
  end.
  apply wp_emits. unfold render_entry, entry_lines, step_line. cbv zeta.
  wp_run.
  remember (prop entry "decision") as d eqn:Ed.
  pose proof (nullish_or_else_record d) as Hnd.
  rewrite <- (prop_or_else_record d "action") in * by assumption.
  rewrite <- (prop_or_else_record d "target") in * by assumption.
  assert (Esr : step_reason_of d = step_reason_of (or_else d (VObj []))).
  { unfold step_reason_of. now rewrite !(prop_or_else_record d) by assumption. }
  rewrite Esr in *. clear Esr.
  remember (or_else d (VObj [])) as decision eqn:Edec.
  wp_run.
  eapply emits_wp; [now apply emits_step_reason |]. cbv beta iota.
  wp_run.
  apply wp_str_scalar;
    [apply is_scalar_nullish_or; [eapply optional_scalar; [| eassumption] | reflexivity] |].
  { intros x Hx. destruct x; simpl in *; congruence. }
  cbv beta iota. wp_run.
  apply wp_str_scalar; [now apply is_scalar_or_else |]. cbv beta iota.
  wp_run.
  assert (Hwhy : wp (if truthy (step_reason_of decision)
                     then s <- str (step_reason_of decision) ;; ret (" :: " ++ s)
                     else ret "")
             (fun r e c => r = Normal (if truthy (step_reason_of decision)
                                       then " :: " ++ text (step_reason_of decision)
                                       else "")
                           /\ e = [] /\ c = None)).
  { destruct (truthy (step_reason_of decision)).
    - wp_run. apply wp_str_scalar; [assumption |]. cbv beta iota.
      wp_run. now repeat split.
    - wp_run. now repeat split. }
  eapply wp_conseq; [exact Hwhy |]. clear Hwhy.
  intros r e c (-> & -> & ->).
  wp_run.
  eapply emits_wp; [now apply emits_render_target |]. cbv beta iota.
  wp_run.
  eapply emits_wp; [now apply emits_render_result |]. cbv beta iota.
  eapply emits_wp; [now apply emits_render_assistant |].
  repeat split.
Qed.

Lemma emits_timeline (timeline : list value) :
  forallb TimelineEntry_shape timeline = true ->
  emits (for_of timeline render_entry) (Normal tt)
    (concat (map entry_lines timeline)) None.
Proof.
  induction timeline as [| entry rest IH]; intros H;
    cbn [for_of map concat forallb] in *.
  - apply emits_ret.
  - apply andb_prop in H as [He Hrest].
    change None with (then_ec None None).
    eapply emits_bind; [now apply emits_render_entry | now apply IH].
Qed.

Lemma emits_effective_status (run : value) :
  nullish run = false ->
  emits (effective_status run) (Normal (status_if_truthy run)) [] None.
Proof.
  intros Hn. apply wp_emits. unfold effective_status, status_if_truthy, or_else.
  wp_run. destruct (truthy (prop run "status")); wp_run; now repeat split.
Qed.

(** The fields of a run result. *)
Lemma RunResult_fields (run : value) :
  RunResult_shape run = true ->
  nullish run = false
  /\ is_scalar (status_if_truthy run) = true
  /\ is_scalar (nullish_or (prop run "iterations") (VStr "n/a")) = true
  /\ is_scalar (nullish_or (prop (prop run "agent") "id") (VStr "unknown")) = true
  /\ forallb TimelineEntry_shape (timeline_of (prop run "timeline")) = true
  /\ optional (seq_of is_str) (prop run "completeHistory") = true.
Proof.
  unfold RunResult_shape. intros H.
  apply andb_prop in H as [H Hhistory]. apply andb_prop in H as [H Htimeline].
  apply andb_prop in H as [H Hagent]. apply andb_prop in H as [H Hiter].
  apply andb_prop in H as [H Hok]. apply andb_prop in H as [Hrec Hstatus].
  split; [now apply record_not_nullish |].
  split.
  { unfold status_if_truthy. apply is_scalar_or_else.
    - eapply optional_scalar; [| eassumption]. intros x Hx. now destruct x.
    - now destruct (truthy (prop run "ok")). }
  split.
  { apply is_scalar_nullish_or; [| reflexivity].
    eapply optional_scalar; [| eassumption]. intros x Hx. now destruct x. }
  split.
  { apply is_scalar_nullish_or; [| reflexivity].
    unfold optional in Hagent. apply orb_prop in Hagent as [Ha | Ha].
    - now apply is_scalar_undefined_prop.
    - unfold Agent_shape in Ha. now apply andb_prop in Ha as [_ ?]. }
  split; [| assumption].
  unfold optional in Htimeline. apply orb_prop in Htimeline as [Ht | Ht];
    destruct (prop run "timeline"); simpl in *; congruence.
Qed.

Lemma emits_summary_line (run status : value) :
  nullish run = false ->
  is_scalar status = true ->
  is_scalar (nullish_or (prop run "iterations") (VStr "n/a")) = true ->
  is_scalar (nullish_or (prop (prop run "agent") "id") (VStr "unknown")) = true ->
  exists line,
    emits (summary_line run status) (Normal line) [] None
    /\ summary_of run status = ConsoleLog [VStr line].
Proof.
  intros Hn Hs Hi Ha. eexists. split; [| reflexivity].
  apply wp_emits. unfold summary_line.
  wp_run. apply wp_str_scalar; [assumption |]. cbv beta iota.
  wp_run. apply wp_str_scalar; [assumption |]. cbv beta iota.
  wp_run. rewrite Get_opt_prop. apply wp_str_scalar; [assumption |]. cbv beta iota.
  wp_run. now repeat split.
Qed.

Lemma emits_history (history : value) :
  optional (seq_of is_str) history = true ->
  emits (match history with
         | VArr entries =>
             if (length entries =? 0)%nat then ret tt else
             s <- joined " | " entries ;;
             console_log [VStr (" complete history: " ++ s)]
         | _ => ret tt
         end) (Normal tt) (history_lines history) None.
Proof.
  intros H. apply wp_emits. unfold history_lines.
  destruct history as [| | | | | entries |]; simpl in H; try discriminate;
    try (wp_run; now repeat split).
  destruct entries as [| x rest]; cbn [length Nat.eqb strings_of map];
    [wp_run; now repeat split |].
  wp_run. eapply wp_joined; [now apply Array_join_strings |]. cbv beta iota.
  wp_run. now repeat split.
Qed.

Lemma emits_exit_decision (status : value) :
  is_scalar status = true ->
  emits (exit_decision status) (Normal tt)
    (diagnostic_lines status) (exit_code_of status).
Proof.
  intros Hs. apply wp_emits. unfold exit_decision, diagnostic_lines, exit_code_of, diagnostic.
  destruct (is_string "completed" status); simpl negb; cbv iota.
  - wp_run. now repeat split.
  - wp_run. apply wp_str_scalar; [assumption |]. cbv beta iota.
    wp_run. now repeat split.
Qed.

Lemma emits_renderRunResult (run : value) :
  RunResult_shape run = true ->
  emits (renderRunResult run) (Normal tt)
    (report_lines run) (exit_code_of (status_if_truthy run)).
Proof.
  intros H.
  assert (Hrec : is_record run = true).
  { unfold RunResult_shape in H. now repeat (apply andb_prop in H as [H ?]). }
  destruct (RunResult_fields run H) as (Hn & Hs & Hi & Ha & Ht & Hh).
  destruct (emits_summary_line run _ Hn Hs Hi Ha) as (line & Hline & Eline).
  apply wp_emits. unfold renderRunResult, report_lines. cbv zeta.
  replace (negb (truthy run) || negb (typeof run =? "object")) with false
    by (destruct run; simpl in *; congruence).
  wp_run.
  eapply emits_wp; [now apply emits_effective_status |]. cbv beta iota.
  wp_run.
  eapply emits_wp; [exact Hline |]. cbv beta iota.
  wp_run. rewrite Eline.
  destruct (timeline_of (prop run "timeline")) as [| entry rest] eqn:Etl;
    cbn [length Nat.eqb timeline_lines].
  - cbn [for_of]. wp_run.
    eapply emits_wp; [now apply emits_history |]. cbv beta iota.
    eapply emits_wp; [now apply emits_exit_decision |].
    repeat split. now rewrite !then_ec_None_l.
  - wp_run.
    eapply emits_wp; [now apply emits_timeline |]. cbv beta iota.
    wp_run.
    eapply emits_wp; [now apply emits_history |]. cbv beta iota.
    eapply emits_wp; [now apply emits_exit_decision |].
    repeat split. now rewrite !then_ec_None_l.
Qed.

End RendererShapes.

(** ** The renderer: what the report holds *)

Section RendererSpec.

Context {N : Number}.

(** C10.  A payload that is not a structured object (null, undefined, a
    string, a number, a boolean) is printed in its serialised form and
    nothing else happens: the renderer returns at once, the exit code is
    left as it was, and a process that started the rendering with no exit
    code set ends with status 0, whatever the payload says. *)
Theorem non_object_payload_only_printed (run : value) :
  structured run = false ->
  emits (renderRunResult run) (Normal tt)
    [ConsoleLog [VStr "Agent response:"; string_or_undefined (JSON_stringify run)]]
    None
  /\ exit_status (renderRunResult run start_process) = 0%Z.
Proof.
  intros H.
  assert (E : renderRunResult run =
              console_log [VStr "Agent response:"; string_or_undefined (JSON_stringify run)]).
  { unfold renderRunResult.
    destruct run as [| | b | n | s | items | props]; simpl in H; try discriminate;
      simpl; try reflexivity.
    - now destruct b.
    - now destruct (Number_toBoolean n).
    - now destruct s. }
  rewrite E. split; [apply emits_emit | reflexivity].
Qed.

(** C9.  Rendering the same value twice in a row completes the same way
    both times, appends the same events both times and takes the same
    decision on the exit code both times: nothing the first rendering left
    in the process is read by the second. *)
Theorem render_twice_identical (run : value) :
  exists r evs ec, forall p,
    renderRunResult run p = (r, extend p evs ec)
    /\ renderRunResult run (extend p evs ec) = (r, extend (extend p evs ec) evs ec).
Proof.
  destruct (uniform_renderRunResult run) as (r & evs & ec & H).
  exists r, evs, ec. intros p. split; apply H.
Qed.

(** C5.  On a run result of the data model, whichever of its fields and of
    the fields of its timeline entries are absent, the renderer returns
    normally: it raises nothing and prints the report with the defaults in
    the places of what is absent. *)
Theorem renderer_never_fails_on_absence (run : value) :
  RunResult_shape run = true ->
  exists evs ec,
    emits (renderRunResult run) (Normal tt) evs ec
    /\ evs = report_lines run
    /\ ec = exit_code_of (status_if_truthy run).
Proof.
  intros H. exists (report_lines run), (exit_code_of (status_if_truthy run)).
  split; [now apply emits_renderRunResult | split; reflexivity].
Qed.


(** C3, as amended.  The effective status is the status field when that
    field is truthy (present and not the empty string), else [completed]
    when [ok] is truthy, else [unknown].  The renderer leaves the exit code
    alone and prints no diagnostic exactly when the effective status is the
    string [completed]; for any other effective status it sets the exit
    code to 1 and ends the report with the diagnostic naming the status. *)
Theorem exit_code_by_effective_status (run : value) :
  RunResult_shape run = true ->
  let status :=
    or_else (prop run "status")
      (if truthy (prop run "ok") then VStr "completed" else VStr "unknown") in
  exists body ending ec,
    emits (renderRunResult run) (Normal tt)
      (summary_of run status :: body ++ ending) ec
    /\ Forall (fun ev => is_console_error ev = false) body
    /\ (status = VStr "completed" -> ec = None /\ ending = [])
    /\ (status <> VStr "completed" ->
        ec = Some 1%Z /\ ending = [diagnostic (text status)]).
Proof.
  intros H status.
  exists (timeline_lines (timeline_of (prop run "timeline"))
          ++ history_lines (prop run "completeHistory"))%list,
         (diagnostic_lines status), (exit_code_of status).
  split; [| split; [| split]].
  - rewrite <- app_assoc. now apply emits_renderRunResult.
  - apply Forall_app. split.
    + unfold timeline_lines.
      destruct (timeline_of (prop run "timeline")) as [| e rest];
        [repeat constructor |].
      apply Forall_concat. apply Forall_map. apply Forall_forall. intros entry _.
      unfold entry_lines, target_lines, result_lines_if_truthy, assistant_lines.
      cbv zeta. constructor; [reflexivity |].
      repeat (apply Forall_app; split);
        repeat (match goal with
                | |- context [if ?b then _ else _] => destruct b
                end);
        repeat constructor.
    + unfold history_lines. destruct (strings_of _); repeat constructor.
  - intros E. unfold exit_code_of, diagnostic_lines. now rewrite E.
  - intros E. unfold exit_code_of, diagnostic_lines.
    destruct (is_string "completed" status) eqn:Es; [| split; reflexivity].
    exfalso. apply E. destruct status; simpl in Es; try discriminate.
    apply String.eqb_eq in Es. now subst.
Qed.

(** C6.  For a timeline entry whose decision has a target, the label is the
    elements of [hints.text_exact] joined with [ | ] when that is not
    empty, else [hints.text_partial], else the first element of
    [hints.text_contains]; the target line follows the step line when the
    label is not empty, and no target line is printed when it is. *)
Theorem target_label_precedence (entry : value) :
  TimelineEntry_shape entry = true ->
  let target := prop (prop entry "decision") "target" in
  is_record target = true ->
  let hints := prop target "hints" in
  let label :=
    first_nonempty
      [join " | " (strings_of (prop hints "text_exact"));
       string_of (prop hints "text_partial");
       hd "" (strings_of (prop hints "text_contains"))] in
  emits (render_entry entry) (Normal tt)
    (step_line entry
     :: (if nonempty label then [ConsoleLog [VStr ("   target: " ++ label)]] else [])
     ++ result_lines_if_truthy (prop entry "result")
     ++ assistant_lines (prop entry "assistant"))
    None.
Proof.
  intros H target Ht hints label.
  pose proof (emits_render_entry entry H) as He.
  unfold entry_lines in He. fold target in He. rewrite Ht in He. exact He.
Qed.

(** C7, as amended.  For a timeline entry the renderer prints the result
    line (next and, when it is truthy, the reason) exactly when
    [result.next] is truthy (present and not the empty string) and is not
    the string [continue]; otherwise it prints the clicked line when
    [result.clicked] is present, with the name, else the id, else
    [candidate], and the hit state or [n/a]; otherwise it prints nothing
    for the result. *)
Theorem result_line_when_next_truthy (entry : value) :
  TimelineEntry_shape entry = true ->
  let result := prop entry "result" in
  let next := prop result "next" in
  let clicked := prop result "clicked" in
  emits (render_result entry) (Normal tt)
    (if truthy next && negb (is_string "continue" next)
     then [result_line result]
     else if negb (nullish clicked) then [clicked_line clicked] else [])
    None.
Proof.
  intros H result next clicked.
  unfold TimelineEntry_shape in H.
  apply andb_prop in H as [H _]. apply andb_prop in H as [H Hres].
  apply andb_prop in H as [H _]. apply andb_prop in H as [Hrec _].
  pose proof (emits_render_result entry (record_not_nullish _ Hrec) Hres) as Hr.
  unfold result_lines_if_truthy in Hr. fold result next clicked in Hr.
  destruct (Result_fields result Hres) as (_ & _ & Hc).
  fold clicked in Hc.
  rewrite (optional_record_truthy _ _ Clicked_record Hc) in Hr.
  replace (negb (nullish clicked)) with (is_record clicked); [exact Hr |].
  unfold optional in Hc. apply orb_prop in Hc as [Hc | Hc].
  - rewrite Hc. destruct clicked; simpl in *; congruence.
  - rewrite (Clicked_record _ Hc), (record_not_nullish _ (Clicked_record _ Hc)).
    reflexivity.
Qed.

End RendererSpec.

(** ** The option parser *)

Section ParseArgsFacts.

Lemma recognized_cases (token : string) :
  recognized token = true ->
  token = "--prompt-file" \/ token = "--prompt" \/ token = "--context"
  \/ token = "--context-file" \/ token = "--critic-key"
  \/ token = "--assistant-key" \/ token = "--assistant-id".
Proof.
  unfold recognized, recognized_flags. cbn [existsb].
  intros H.
  repeat (apply orb_prop in H as [H | H];
          [apply String.eqb_eq in H; tauto |]).
  discriminate.
Qed.

(** One turn of the loop on a recognized flag followed by a truthy token. *)
Lemma parseArgs_loop_pair (flag v : string) (rest : list string) (out : ParsedOptions) :
  recognized flag = true ->
  nonempty v = true ->
  parseArgs_loop (flag :: v :: rest) out = parseArgs_loop rest (set_flag flag v out).
Proof.
  intros Hf Hv.
  apply recognized_cases in Hf.
  repeat (destruct Hf as [-> | Hf]); try subst flag;
    cbn [parseArgs_loop]; rewrite Hv; reflexivity.
Qed.

(** One turn of the loop on a token that is no recognized flag. *)
Lemma parseArgs_loop_plain (token next : string) (rest : list string) (out : ParsedOptions) :
  recognized token = false ->
  parseArgs_loop (token :: next :: rest) out
  = parseArgs_loop (next :: rest) (push_positional token out).
Proof.
  unfold recognized, recognized_flags. cbn [existsb]. intros H.
  repeat (apply orb_false_elim in H as [? H]).
  cbn [parseArgs_loop].
  repeat match goal with E : (token =? _) = false |- _ => rewrite E; clear E end.
  reflexivity.
Qed.

(** One turn of the loop on a token followed by the empty string. *)
Lemma parseArgs_loop_empty_next (token : string) (rest : list string) (out : ParsedOptions) :
  parseArgs_loop (token :: "" :: rest) out
  = parseArgs_loop ("" :: rest) (push_positional token out).
Proof.
  cbn [parseArgs_loop nonempty]. rewrite !andb_false_r. reflexivity.
Qed.

(** A prefix without recognized flags is pushed token by token. *)
Lemma parseArgs_loop_plain_prefix (pre : list string) (token : string)
    (rest : list string) (out : ParsedOptions) :
  Forall (fun t => recognized t = false) pre ->
  parseArgs_loop (pre ++ token :: rest) out
  = parseArgs_loop (token :: rest) (push_all pre out).
Proof.
  revert out. induction pre as [| t pre IH]; intros out H; [reflexivity |].
  inversion H as [| ? ? Ht Hpre]; subst.
  cbn [app]. destruct pre as [| t' pre'].
  - cbn [app]. now rewrite parseArgs_loop_plain.
  - cbn [app]. rewrite parseArgs_loop_plain by assumption.
    change (t' :: pre' ++ token :: rest)%list with ((t' :: pre') ++ token :: rest)%list.
    now rewrite IH.
Qed.

End ParseArgsFacts.

Section ParseArgsInvariants.

#[local] Open Scope list_scope.

(** The loop keeps what every turn keeps: a property of the tokens consumed
    so far and of the object built so far that survives a positional push
    and a flag/value pair survives the whole scan. *)
Lemma parseArgs_loop_invariant (P : list string -> ParsedOptions -> Prop) :
  (forall seen token o, P seen o -> P (seen ++ [token]) (push_positional token o)) ->
  (forall seen flag v o,
     recognized flag = true -> nonempty v = true ->
     P seen o -> P (seen ++ [flag; v]) (set_flag flag v o)) ->
  forall argv seen out, P seen out -> P (seen ++ argv) (parseArgs_loop argv out).
Proof.
  intros Hpush Hpair argv.
  assert (H : forall n argv, (length argv <= n)%nat ->
              forall seen out, P seen out -> P (seen ++ argv) (parseArgs_loop argv out)).
  { induction n as [| n IH]; intros l Hlen seen out HP.
    - destruct l; [| simpl in Hlen; lia]. now rewrite app_nil_r.
    - destruct l as [| token rest]; [now rewrite app_nil_r |].
      destruct rest as [| next after].
      + cbn [parseArgs_loop]. now apply Hpush.
      + destruct (recognized token) eqn:Hrec.
        * destruct (nonempty next) eqn:Hnext.
          -- rewrite parseArgs_loop_pair by assumption.
             change (token :: next :: after) with ([token; next] ++ after).
             rewrite app_assoc. apply IH; [simpl in *; lia |]. now apply Hpair.
          -- destruct next; [| discriminate].
             rewrite parseArgs_loop_empty_next.
             change (token :: "" :: after) with ([token] ++ "" :: after).
             rewrite app_assoc. apply IH; [simpl in *; lia |]. now apply Hpush.
        * rewrite parseArgs_loop_plain by assumption.
          change (token :: next :: after) with ([token] ++ next :: after).
          rewrite app_assoc. apply IH; [simpl in *; lia |]. now apply Hpush. }
  intros seen out. apply (H (length argv)). lia.
Qed.

Lemma get_flag_push (flag token : string) (o : ParsedOptions) :
  get_flag flag (push_positional token o) = get_flag flag o.
Proof. unfold get_flag. repeat destruct (_ =? _); reflexivity. Qed.

Lemma get_flag_set (flag flag' v : string) (o : ParsedOptions) :
  recognized flag' = true ->
  get_flag flag (set_flag flag' v o)
  = if flag =? flag' then Some v else get_flag flag o.
Proof.
  intros H. apply recognized_cases in H.
  repeat (destruct H as [-> | H]); try subst flag';
    unfold set_flag, get_flag; cbn [String.eqb Ascii.eqb Bool.eqb];
    repeat match goal with
           | |- context [flag =? ?s] => destruct (flag =? s) eqn:?
           end;
    try reflexivity;
    repeat match goal with
           | E : (flag =? _) = true |- _ => apply String.eqb_eq in E; subst flag
           end;
    try discriminate; reflexivity.
Qed.

Lemma positional_set_flag (flag v : string) (o : ParsedOptions) :
  positional (set_flag flag v o) = positional o.
Proof. unfold set_flag. repeat destruct (_ =? _); reflexivity. Qed.

(** No option holds the empty string. *)
Lemma parseArgs_values_nonempty (argv : list string) (flag v : string) :
  get_flag flag (parseArgs argv) = Some v -> nonempty v = true.
Proof.
  unfold parseArgs.
  pose (P := fun (seen : list string) (o : ParsedOptions) =>
               forall f x, get_flag f o = Some x -> nonempty x = true).
  assert (H : P ([] ++ argv) (parseArgs_loop argv no_options)).
  { apply parseArgs_loop_invariant; unfold P.
    - intros seen token o IH f x Hf. rewrite get_flag_push in Hf. eauto.
    - intros seen fl val o Hrec Hval IH f x Hf.
      rewrite get_flag_set in Hf by assumption.
      destruct (f =? fl); [now injection Hf as <- | eauto].
    - intros f x Hf. unfold get_flag, no_options in Hf.
      repeat destruct (_ =? _); discriminate. }
  intros Hf. exact (H flag v Hf).
Qed.

(** One turn of the loop on a token that stays positional. *)
Lemma parseArgs_loop_token (token : string) (rest : list string) (out : ParsedOptions) :
  recognized token = false ->
  parseArgs_loop (token :: rest) out = parseArgs_loop rest (push_positional token out).
Proof.
  intros H. destruct rest; [reflexivity | now apply parseArgs_loop_plain].
Qed.

(** Every command line has a reading. *)
Lemma Reads_total (argv : list string) : exists items, Reads argv items.
Proof.
  assert (H : forall n l, (length l <= n)%nat -> exists items, Reads l items).
  { induction n as [| n IH]; intros l Hlen.
    - destruct l; [| simpl in Hlen; lia]. exists []. constructor.
    - destruct l as [| token rest]; [exists []; constructor |].
      destruct (recognized token) eqn:Hrec.
      + destruct rest as [| next after].
        * exists [Token token]. now apply Reads_last_flag.
        * destruct (nonempty next) eqn:Hnext.
          -- destruct (IH after) as (items & H); [simpl in *; lia |].
             exists (Pair token next :: items). now apply Reads_pair.
          -- destruct next; [| discriminate].
             destruct (IH (EmptyString :: after)) as (items & H); [simpl in *; lia |].
             exists (Token token :: items). now apply Reads_flag_empty.
      + destruct (IH rest) as (items & H); [simpl in *; lia |].
        exists (Token token :: items). now apply Reads_token. }
  apply (H (length argv)). lia.
Qed.

(** The loop, started on an object [out], adds to it what the reading of
    the tokens says: the positional tokens after those of [out], and for
    each flag the value of its last pair over the value [out] had. *)
Lemma Reads_loop (argv : list string) (items : list item) :
  Reads argv items ->
  forall out,
    positional (parseArgs_loop argv out) = positional out ++ tokens_of items
    /\ forall flag,
         get_flag flag (parseArgs_loop argv out)
         = match value_of flag items with
           | Some v => Some v
           | None => get_flag flag out
           end.
Proof.
  induction 1 as [| flag v rest items Hrec Hv _ IH
                  | token rest items Hrec _ IH
                  | flag Hrec
                  | flag rest items Hrec _ IH]; intros out.
  - cbn [parseArgs_loop tokens_of value_of]. now rewrite app_nil_r.
  - rewrite parseArgs_loop_pair by assumption.
    destruct (IH (set_flag flag v out)) as [Hp Hf].
    split.
    + now rewrite Hp, positional_set_flag.
    + intros f. rewrite Hf, get_flag_set by assumption.
      cbn [value_of]. destruct (value_of f items); [reflexivity |].
      now destruct (f =? flag).
  - rewrite parseArgs_loop_token by assumption.
    destruct (IH (push_positional token out)) as [Hp Hf].
    split.
    + rewrite Hp. cbn [push_positional positional tokens_of].
      now rewrite <- app_assoc.
    + intros f. now rewrite Hf, get_flag_push.
  - cbn [parseArgs_loop tokens_of value_of]. split; [reflexivity |].
    intros f. apply get_flag_push.
  - rewrite parseArgs_loop_empty_next.
    destruct (IH (push_positional flag out)) as [Hp Hf].
    split.
    + rewrite Hp. cbn [push_positional positional tokens_of].
      now rewrite <- app_assoc.
    + intros f. now rewrite Hf, get_flag_push.
Qed.

End ParseArgsInvariants.

Section ParseArgsSpec.

(** C4, as amended.  Every command line has a reading from the left, and
    the parser returns what the reading says.  A recognized flag the scan
    reaches (one not itself taken as the value of the flag before it) that
    is followed by a token other than the empty string is consumed together
    with that token as a flag/value pair: neither is positional, and the
    option of the flag holds the value of its last pair.  A recognized flag
    the scan reaches that is the last token, or that is followed by the
    empty string, is not consumed and is positional, as is every token the
    scan reaches that is no recognized flag.  An option without a pair is
    not set.  The parser is a total function: it has no failing outcome. *)
Theorem recognized_flag_consumed_with_value (argv : list string) :
  (exists items, Reads argv items)
  /\ forall items,
       Reads argv items ->
       parseArgs argv
       = {| positional := tokens_of items;
            promptFile := value_of "--prompt-file" items;
            prompt := value_of "--prompt" items;
            context := value_of "--context" items;
            contextFile := value_of "--context-file" items;
            criticKey := value_of "--critic-key" items;
            assistantKey := value_of "--assistant-key" items;
            assistantId := value_of "--assistant-id" items |}.
Proof.
  split; [apply Reads_total |].
  intros items H. unfold parseArgs.
  destruct (Reads_loop argv items H no_options) as [Hp Hf].
  pose proof (Hf "--prompt-file") as H1. pose proof (Hf "--prompt") as H2.
  pose proof (Hf "--context") as H3. pose proof (Hf "--context-file") as H4.
  pose proof (Hf "--critic-key") as H5. pose proof (Hf "--assistant-key") as H6.
  pose proof (Hf "--assistant-id") as H7. clear Hf.
  destruct (parseArgs_loop argv no_options).
  cbn in Hp, H1, H2, H3, H4, H5, H6, H7. subst.
  f_equal;
    match goal with |- _ = value_of ?f items => now destruct (value_of f items) end.
Qed.

End ParseArgsSpec.

(** ** The start flow and the daemon gate *)

Section StartFacts.

Context {N : Number}.
Variable w : world.

Lemma wp_loadFileSafe (path : string) Q :
  (forall contents, readFileSync w path = inl contents -> Q (Normal contents) [] None) ->
  (forall err, readFileSync w path = inr err ->
     Q (Exit 1%Z) [read_failure path err] None) ->
  wp (loadFileSafe w path) Q.
Proof.
  intros Hok Hfail. unfold loadFileSafe.
  destruct (readFileSync w path) as [contents | err].
  - apply wp_ret. now apply Hok.
  - wp_run. now apply Hfail.
Qed.

Lemma emits_resolve_prompt (options : ParsedOptions) :
  emits (resolve_prompt w options)
    (fst (prompt_outcome w options)) (snd (prompt_outcome w options)) None.
Proof.
  apply wp_emits. unfold resolve_prompt, prompt_outcome. cbv zeta.
  destruct (opt_truthy (prompt options)) eqn:Ep; cbn [negb andb].
  - wp_run. rewrite Ep. now repeat split.
  - destruct (opt_truthy (promptFile options)) eqn:Ef.
    + wp_run. apply wp_loadFileSafe.
      * intros contents Hr. rewrite Hr. wp_run. cbn [opt_truthy fst snd].
        destruct (nonempty contents); cbn [negb andb];
          destruct (0 <? length (positional options))%nat; now repeat split.
      * intros err Hr. rewrite Hr. now repeat split.
    + wp_run. rewrite Ep. cbn [negb andb fst snd].
      destruct (0 <? length (positional options))%nat; now repeat split.
Qed.
Lemma uniform_exit {A} (c : Z) : uniform (@process_exit _ A c).
Proof. do 3 eexists. apply emits_exit. Qed.

Lemma uniform_try_catch {A} (m : M A) (h : exn -> M A) :
  uniform m -> (forall e, uniform (h e)) -> uniform (try_catch m h).
Proof.
  intros (r & e1 & c1 & Hm) Hh. destruct r as [a | e | c].
  - do 3 eexists. apply emits_try_normal. eassumption.
  - destruct (Hh e) as (r & e2 & c2 & He).
    do 3 eexists. eapply emits_try_throw; eassumption.
  - do 3 eexists. apply emits_try_exit. eassumption.
Qed.

Lemma wp_uniform {A} (m : M A) (Q : completion A -> list event -> option Z -> Prop) :
  uniform m -> (forall r e c, Q r e c) -> wp m Q.
Proof. intros (r & e & c & Hm) HQ. exists r, e, c. auto. Qed.

Lemma uniform_callRuntime pathname method body :
  uniform (callRuntime w pathname method body).
Proof.
  unfold callRuntime. apply uniform_bind; [apply uniform_emit | intros _].
  destruct (client_request w pathname method body);
    [apply uniform_ret | apply uniform_throw].
Qed.

Lemma uniform_request_failed what err : uniform (request_failed what err).
Proof.
  unfold request_failed. uniform_auto; apply uniform_exit.
Qed.

Lemma wp_start_request payload
    (Q : completion unit -> list event -> option Z -> Prop) :
  (forall r rest c, Q r (ClientRequest "/run/start" "POST" payload :: rest) c) ->
  wp (try_catch
        (result <- callRuntime w "/run/start" "POST" payload ;;
         renderRunResult result)
        (request_failed "Failed to start agent:")) Q.
Proof.
  intros HQ. apply wp_try_catch. unfold callRuntime. wp_run.
  destruct (client_request w "/run/start" "POST" payload) as [result | err].
  - wp_run. apply wp_uniform; [apply uniform_renderRunResult |].
    intros r e c. destruct r; try apply HQ.
    apply wp_uniform; [apply uniform_request_failed |]. intros; apply HQ.
  - wp_run. apply wp_uniform; [apply uniform_request_failed |]. intros; apply HQ.
Qed.

Lemma wp_resolve_context (options : ParsedOptions) Q :
  (forall notes, Q (Normal notes) [] None) ->
  (forall path err, Q (Exit 1%Z) [read_failure path err] None) ->
  wp (resolve_context w options) Q.
Proof.
  intros Hok Hfail. unfold resolve_context. cbv zeta.
  destruct (_ && _).
  - apply wp_loadFileSafe; intros; [apply Hok | apply Hfail].
  - apply wp_ret, Hok.
Qed.

Lemma prompt_check_blank (p : string) :
  nonempty p && nonempty (trim p) = negb (blank p).
Proof.
  unfold blank. rewrite negb_involutive.
  destruct p; [reflexivity |]. reflexivity.
Qed.

(** [handleStart] when the prompt file cannot be read. *)
Lemma handleStart_unreadable (options : ParsedOptions) c evs :
  prompt_outcome w options = (Exit c, evs) ->
  emits (handleStart w options) (Exit c) evs None.
Proof.
  intros H. pose proof (emits_resolve_prompt options) as Hr. rewrite H in Hr.
  cbn [fst snd] in Hr.
  unfold handleStart. now apply emits_bind_exit.
Qed.

(** [handleStart] on a prompt that resolves to nothing or to blanks. *)
Lemma handleStart_blank (options : ParsedOptions) resolved :
  prompt_outcome w options = (Normal resolved, []) ->
  blank (opt_string resolved) = true ->
  emits (handleStart w options) (Exit 1%Z) [ConsoleError [VStr prompt_missing]] None.
Proof.
  intros H Hb. pose proof (emits_resolve_prompt options) as Hr. rewrite H in Hr.
  cbn [fst snd] in Hr.
  apply wp_emits. unfold handleStart. wp_step.
  eapply emits_wp; [exact Hr |]. cbv beta iota.
  destruct resolved as [p |]; [| wp_run; now repeat split].
  rewrite prompt_check_blank. cbn [opt_string] in Hb. rewrite Hb. cbn [negb].
  wp_run. now repeat split.
Qed.

(** [handleStart] on a prompt that resolves to more than blanks: the
    context file is read, then the daemon is probed. *)
Lemma handleStart_proceeds (options : ParsedOptions) p :
  prompt_outcome w options = (Normal (Some p), []) ->
  blank p = false ->
  wp (handleStart w options)
    (fun r evs ec =>
       (exists path err, r = Exit 1%Z /\ evs = [read_failure path err] /\ ec = None)
       \/ (isAgentDaemonRunning w = false /\ r = Exit 1%Z
           /\ evs = [DaemonProbe; ConsoleError [VStr daemon_missing]] /\ ec = None)
       \/ (isAgentDaemonRunning w = true
           /\ exists notes rest,
                evs = DaemonProbe
                      :: ClientRequest "/run/start" "POST" (payload_of w options p notes)
                      :: rest)).
Proof.
  intros H Hb. pose proof (emits_resolve_prompt options) as Hr. rewrite H in Hr.
  cbn [fst snd] in Hr.
  unfold handleStart. wp_step.
  eapply emits_wp; [exact Hr |]. cbv beta iota.
  rewrite prompt_check_blank, Hb. cbn [negb]. cbv zeta.
  wp_step. apply wp_resolve_context.
  - intros notes. unfold requireAgentDaemon.
    destruct (isAgentDaemonRunning w) eqn:Hd.
    + wp_run. apply wp_start_request. intros r rest c.
      right. right. split; [reflexivity |]. now exists notes, rest.
    + wp_run. right. left. now repeat split.
  - intros path err. left. now exists path, err.
Qed.

Lemma prompt_outcome_normal (options : ParsedOptions) resolved evs :
  prompt_outcome w options = (Normal resolved, evs) -> evs = [].
Proof.
  unfold prompt_outcome. cbv zeta.
  destruct (opt_truthy (prompt options)); [congruence |].
  destruct (opt_truthy (promptFile options)); [| congruence].
  destruct (readFileSync w _); [congruence | discriminate].
Qed.

(** [handleStart] at its gate while no daemon runs. *)
Lemma handleStart_at_gate (options : ParsedOptions) :
  reaches_gate w options = true ->
  isAgentDaemonRunning w = false ->
  emits (handleStart w options) (Exit 1%Z)
    [DaemonProbe; ConsoleError [VStr daemon_missing]] None.
Proof.
  unfold reaches_gate. intros Hg Hd.
  pose proof (emits_resolve_prompt options) as Hr.
  destruct (prompt_outcome w options) as [[[p |] | e | c] evs] eqn:H;
    try discriminate.
  apply andb_prop in Hg as [Hb Hc]. apply negb_true_iff in Hb.
  cbn [fst snd] in Hr.
  apply wp_emits. unfold handleStart. wp_step.
  eapply emits_wp; [exact Hr |]. cbv beta iota.
  rewrite prompt_check_blank, Hb. cbn [negb]. cbv zeta.
  assert (Hevs : evs = []).
  { destruct (prompt_outcome_normal options _ _ H). reflexivity. }
  subst evs.
  unfold resolve_context, context_readable, requireAgentDaemon in *. cbv zeta.
  rewrite Hd.
  destruct (negb (nonempty (opt_string (context options)))
            && opt_truthy (contextFile options)).
  - unfold loadFileSafe.
    destruct (readFileSync w (opt_string (contextFile options))); [| discriminate].
    wp_run. now repeat split.
  - wp_run. now repeat split.
Qed.

Lemma prompt_outcome_cases (options : ParsedOptions) :
  (exists resolved, prompt_outcome w options = (Normal resolved, []))
  \/ (exists path err, prompt_outcome w options = (Exit 1%Z, [read_failure path err])).
Proof.
  unfold prompt_outcome. cbv zeta.
  destruct (opt_truthy (prompt options)); [left; eauto |].
  destruct (opt_truthy (promptFile options)); [| left; eauto].
  destruct (readFileSync w _) as [contents | err]; [left; eauto | right; eauto].
Qed.

(** The outcomes of [handleStart] while no daemon runs. *)
Lemma handleStart_gate_closed (options : ParsedOptions) :
  isAgentDaemonRunning w = false ->
  exists evs,
    emits (handleStart w options) (Exit 1%Z) evs None
    /\ (evs = [ConsoleError [VStr prompt_missing]]
        \/ (exists path err, evs = [read_failure path err])
        \/ evs = [DaemonProbe; ConsoleError [VStr daemon_missing]]).
Proof.
  intros Hd.
  destruct (prompt_outcome_cases options) as [(resolved & H) | (path & err & H)].
  - destruct (blank (opt_string resolved)) eqn:Hb.
    + eexists. split; [eapply handleStart_blank; eassumption | now left].
    + destruct resolved as [p |]; [| discriminate]. cbn [opt_string] in Hb.
      destruct (handleStart_proceeds options p H Hb) as (r & evs & ec & Hm & HQ).
      destruct HQ as [(path & err & -> & -> & ->) | [(_ & -> & -> & ->) | (Ht & _)]].
      * eexists. split; [exact Hm | right; left; eauto].
      * eexists. split; [exact Hm | now right; right].
      * congruence.
  - eexists. split; [eapply handleStart_unreadable; eassumption | right; left; eauto].
Qed.

(** When the prompt file, if it has to be read, can be read, the prompt
    resolves to the first of its sources that is not empty, and to nothing
    or to the empty string when there is none. *)
Lemma prompt_outcome_chosen (options : ParsedOptions) :
  (forall path, promptFile options = Some path -> nonempty path = true) ->
  prompt_file_unreadable w options = false ->
  exists resolved,
    prompt_outcome w options = (Normal resolved, [])
    /\ opt_string resolved = first_nonempty (prompt_sources w options).
Proof.
  intros Hpath Hread.
  assert (Hjoin : forall s : string, (if nonempty s then s else ""%string) = s)
    by (now intros []).
  unfold prompt_outcome, prompt_file_unreadable, prompt_sources in *.
  cbv zeta. cbn [first_nonempty].
  destruct (prompt options) as [flag |]; cbn [opt_truthy opt_string nonempty] in *.
  - destruct (nonempty flag) eqn:Hflag; cbn [negb andb] in Hread.
    + eexists. split; reflexivity.
    + destruct flag; [| discriminate].
      destruct (promptFile options) as [path |]; cbn [opt_truthy opt_string].
      * rewrite (Hpath path eq_refl).
        destruct (readFileSync w path) as [contents | err]; [| discriminate].
        eexists. split; [reflexivity |].
        destruct (nonempty contents) eqn:Hc; [reflexivity |].
        destruct contents; [| discriminate].
        destruct (positional options); cbn [length Nat.ltb Nat.leb opt_string];
          [reflexivity | now rewrite Hjoin].
      * eexists. split; [reflexivity |].
        destruct (positional options); cbn [length Nat.ltb Nat.leb opt_string];
          [reflexivity | now rewrite Hjoin].
  - cbn [negb andb] in Hread.
    destruct (promptFile options) as [path |]; cbn [opt_truthy opt_string].
    + rewrite (Hpath path eq_refl).
      destruct (readFileSync w path) as [contents | err]; [| discriminate].
      eexists. split; [reflexivity |].
      destruct (nonempty contents) eqn:Hc; [reflexivity |].
      destruct contents; [| discriminate].
      destruct (positional options); cbn [length Nat.ltb Nat.leb opt_string];
        [reflexivity | now rewrite Hjoin].
    + eexists. split; [reflexivity |].
      destruct (positional options); cbn [length Nat.ltb Nat.leb opt_string];
        [reflexivity | now rewrite Hjoin].
Qed.

(** [start] from a fresh process when [handleStart] ends the process. *)
Lemma run_start_exit (rest : list string) c evs ec :
  emits (handleStart w (parseArgs rest)) (Exit c) evs ec ->
  run w ("start" :: rest) = (Exit c, {| events := evs; exitCode := ec |}).
Proof.
  intros H.
  change (run w ("start" :: rest))
    with (try_catch (handleStart w (parseArgs rest))
            (fun err => console_error [err_value err] ;; process_exit 1)
            start_process).
  unfold try_catch. rewrite H. unfold extend, start_process.
  cbn [events exitCode app]. now destruct ec.
Qed.

(** [handleStart] with a prompt, a readable context and a running daemon
    probes the daemon and sends the prompt. *)
Lemma handleStart_sends (options : ParsedOptions) p :
  prompt_outcome w options = (Normal (Some p), []) ->
  blank p = false ->
  context_readable w options = true ->
  isAgentDaemonRunning w = true ->
  wp (handleStart w options)
    (fun r evs ec =>
       exists tail,
         evs = DaemonProbe
               :: ClientRequest "/run/start" "POST"
                    (payload_of w options p (context_notes w options))
               :: tail).
Proof.
  intros H Hb Hc Hd. pose proof (emits_resolve_prompt options) as Hr.
  rewrite H in Hr. cbn [fst snd] in Hr.
  unfold handleStart. wp_step.
  eapply emits_wp; [exact Hr |]. cbv beta iota.
  rewrite prompt_check_blank, Hb. cbn [negb]. cbv zeta.
  unfold resolve_context, context_readable, context_notes, requireAgentDaemon in *.
  cbv zeta. rewrite Hd.
  destruct (negb (nonempty (opt_string (context options)))
            && opt_truthy (contextFile options)).
  - unfold loadFileSafe.
    destruct (readFileSync w (opt_string (contextFile options))); [| discriminate].
    wp_run. apply wp_start_request. intros r rest c. now exists rest.
  - wp_run. apply wp_start_request. intros r rest c. now exists rest.
Qed.

End StartFacts.

Section StartSpec.

Context {N : Number}.
Variable w : world.

(** C1.  While the daemon is not running, [start] and [playwright-launch]
    end with exit code 1 and never issue a request.  In every such
    invocation in which the probe is consulted and reports false the
    command prints one line, the error that tells the operator to run
    [nerovaagent] (the activation command) first, and stops there;
    [playwright-launch] always consults the probe, [start] consults it
    whenever the prompt resolves to more than blanks and the context is
    readable. *)
Theorem gate_closed_exits_without_request (command : string) (rest : list string) :
  command = "start" \/ command = "playwright-launch" ->
  isAgentDaemonRunning w = false ->
  exists evs,
    run w (command :: rest) = (Exit 1%Z, {| events := evs; exitCode := None |})
    /\ exit_status (run w (command :: rest)) = 1%Z
    /\ forallb (fun ev => negb (is_request ev)) evs = true
    /\ (In DaemonProbe evs ->
        evs = [DaemonProbe;
               ConsoleError
                 [VStr "No active nerova agent daemon detected. Run `nerovaagent` first to activate it."]])
    /\ (command = "playwright-launch" -> In DaemonProbe evs)
    /\ (command = "start" -> reaches_gate w (parseArgs rest) = true ->
        In DaemonProbe evs).
Proof.
  intros [-> | ->] Hd.
  - change (run w ("start" :: rest))
      with (try_catch (handleStart w (parseArgs rest))
              (fun err => console_error [err_value err] ;; process_exit 1)
              start_process).
    destruct (handleStart_gate_closed w (parseArgs rest) Hd) as (evs & Hm & Hevs).
    exists evs. unfold try_catch. rewrite Hm.
    unfold extend, start_process. cbn [events exitCode app exit_status].
    repeat split.
    + destruct Hevs as [-> | [(path & err & ->) | ->]]; reflexivity.
    + intros Hin.
      destruct Hevs as [-> | [(path & err & ->) | ->]]; [| | reflexivity];
        destruct Hin as [Hin | []]; discriminate.
    + discriminate.
    + intros _ Hg.
      pose proof (handleStart_at_gate w (parseArgs rest) Hg Hd) as Hgate.
      destruct (emits_events_unique _ _ _ _ _ _ _ Hm Hgate) as (_ & -> & _).
      now left.
  - exists [DaemonProbe; ConsoleError [VStr daemon_missing]].
    assert (E : run w ("playwright-launch" :: rest)
                = (Exit 1%Z, {| events := [DaemonProbe; ConsoleError [VStr daemon_missing]];
                                exitCode := None |})).
    { unfold run, main, handlePlaywrightLaunch, requireAgentDaemon.
      rewrite Hd. reflexivity. }
    rewrite E. repeat split; auto; now left.
Qed.

(** C2, as amended.  The prompt of [start] is the first source that is not
    empty, in the order: the value of [--prompt]; the contents of the file
    of [--prompt-file]; the positional tokens joined with a single space.
    The flow ends with the missing-prompt error, exit code 1 and no request
    exactly when the prompt so chosen is absent (no source is non-empty) or
    trims to the empty string; a source that is not empty keeps the later
    ones out even when it is all whitespace.  Otherwise, with a readable
    context and the daemon running, the request carries the chosen prompt,
    trimmed.  A prompt file that has to be read and cannot be ends the flow
    with the file-read error, exit code 1 and no request. *)
Theorem prompt_is_first_truthy_source (rest : list string) :
  let options := parseArgs rest in
  let chosen := first_nonempty (prompt_sources w options) in
  let missing :=
    ConsoleError
      [VStr "A prompt is required. Pass as argument or use --prompt/--prompt-file."] in
  (prompt_file_unreadable w options = false ->
   (exists resolved,
      emits (resolve_prompt w options) (Normal resolved) [] None
      /\ opt_string resolved = chosen)
   /\ (run w ("start" :: rest)
        = (Exit 1%Z, {| events := [missing]; exitCode := None |})
       <-> blank chosen = true)
   /\ (blank chosen = false ->
       context_readable w options = true ->
       isAgentDaemonRunning w = true ->
       let body := payload_of w options chosen (context_notes w options) in
       prop body "prompt" = VStr (trim chosen)
       /\ exists r tail ec,
            run w ("start" :: rest)
            = (r, {| events := DaemonProbe
                               :: ClientRequest "/run/start" "POST" body :: tail;
                     exitCode := ec |})))
  /\ (forall path err,
        opt_truthy (prompt options) = false ->
        promptFile options = Some path ->
        readFileSync w path = inr err ->
        run w ("start" :: rest)
        = (Exit 1%Z,
           {| events := [ConsoleError [VStr ("Failed to read " ++ path ++ ":");
                                       message_or_err err]];
              exitCode := None |})).
Proof.
  intros options chosen missing.
  assert (Hpath : forall path, promptFile options = Some path -> nonempty path = true).
  { intros path Hf. apply (parseArgs_values_nonempty rest "--prompt-file"). exact Hf. }
  split.
  - intros Hread.
    destruct (prompt_outcome_chosen w options Hpath Hread) as (resolved & H & Hres).
    fold chosen in Hres.
    pose proof (emits_resolve_prompt w options) as Hr. rewrite H in Hr.
    cbn [fst snd] in Hr.
    split; [now exists resolved |].
    destruct (blank chosen) eqn:Hb.
    + assert (Hrun : run w ("start" :: rest)
                     = (Exit 1%Z, {| events := [missing]; exitCode := None |})).
      { apply run_start_exit. apply (handleStart_blank w options resolved H).
        now rewrite Hres. }
      split; [now split | intros; discriminate].
    + destruct resolved as [p |];
        [cbn [opt_string] in Hres; subst p | now rewrite <- Hres in Hb].
      destruct (handleStart_proceeds w options chosen H Hb) as (r & evs & ec & Hm & HQ).
      split; [split; [intros Hrun; exfalso | discriminate] |].
      * change (run w ("start" :: rest))
          with (try_catch (handleStart w options)
                  (fun err => console_error [err_value err] ;; process_exit 1)
                  start_process) in Hrun.
        unfold try_catch in Hrun. rewrite Hm in Hrun.
        destruct HQ as [(path & err & -> & -> & ->)
                       | [(_ & -> & -> & ->) | (_ & notes & tail & ->)]].
        -- unfold extend, start_process, read_failure in Hrun. discriminate.
        -- unfold extend, start_process in Hrun. discriminate.
        -- destruct r as [[] | e | c];
             unfold extend, start_process, bind, console_error, emit, process_exit
               in Hrun;
             cbn [events exitCode app] in Hrun; discriminate.
      * intros _ Hc Hd body. split; [reflexivity |].
        destruct (handleStart_sends w options chosen H Hb Hc Hd)
          as (r' & evs' & ec' & Hm' & tail & ->).
        change (run w ("start" :: rest))
          with (try_catch (handleStart w options)
                  (fun err => console_error [err_value err] ;; process_exit 1)
                  start_process).
        unfold try_catch. rewrite Hm'.
        destruct r' as [[] | e | c].
        -- exists (Normal tt), tail, ec'. unfold extend, start_process.
           cbn [events exitCode app]. now destruct ec'.
        -- exists (Exit 1%Z), (tail ++ [ConsoleError [err_value e]])%list, ec'.
           unfold extend, start_process, bind, console_error, emit, process_exit.
           cbn [events exitCode app]. now destruct ec'.
        -- exists (Exit c), tail, ec'. unfold extend, start_process.
           cbn [events exitCode app]. now destruct ec'.
  - intros path err Hp Hf Hread.
    apply run_start_exit.
    apply (handleStart_unreadable w options).
    unfold prompt_outcome. cbv zeta. rewrite Hp, Hf.
    cbn [opt_truthy opt_string]. now rewrite (Hpath path Hf), Hread.
Qed.

End StartSpec.

(** ** Whole runs *)

Section Runs.

Import Sample.

(** [nerovaagent start fix the bug] with the daemon running. *)
Example start_completed_run :
  run (machine true) ["start"; "fix"; "the"; "bug"]
  = (Normal tt,
     {| events :=
          [DaemonProbe;
           ClientRequest "/run/start" "POST"
             (VObj [("prompt", VStr "fix the bug"); ("contextNotes", VStr "");
                    ("criticKey", VNull); ("assistantKey", VNull);
                    ("assistantId", VNull)]);
           ConsoleLog [VStr "[nerovaagent] status=completed iterations=1 agent=unknown"];
           empty_marker];
        exitCode := None |}).
Proof. reflexivity. Qed.

(** [nerovaagent bogus]. *)
Example unknown_command_run :
  run (machine true) ["bogus"]
  = (Exit 1%Z,
     {| events := [ConsoleError [VStr "Unknown command: bogus"];
                   ConsoleLog [VStr help_text]];
        exitCode := None |}).
Proof. reflexivity. Qed.

(** Outside the data model the renderer can raise: a timeline entry that is
    [null] has no properties to read, and an object with an own [toString]
    property has no text. *)
Example null_entry_raises :
  renderRunResult (VObj [("timeline", VArr [VNull])]) start_process
  = (Throw (TypeError "Cannot read properties of null (reading 'iteration')"),
     {| events := [ConsoleLog [VStr "[nerovaagent] status=unknown iterations=n/a agent=unknown"]];
        exitCode := None |}).
Proof. reflexivity. Qed.

Example own_toString_raises :
  renderRunResult (VObj [("status", VObj [("toString", VNull)])]) start_process
  = (Throw (TypeError "Cannot convert object to primitive value"),
     {| events := []; exitCode := None |}).
Proof. reflexivity. Qed.

End Runs.

(** ** The theorems at concrete inputs *)

Section Witnesses.

Import Sample.

Lemma gate_closed_witness :
  isAgentDaemonRunning (machine false) = false
  /\ exists evs,
       run (machine false) ["start"; "fix"; "the"; "bug"]
       = (Exit 1%Z, {| events := evs; exitCode := None |})
       /\ exit_status (run (machine false) ["start"; "fix"; "the"; "bug"]) = 1%Z
       /\ forallb (fun ev => negb (is_request ev)) evs = true
       /\ (In DaemonProbe evs ->
           evs = [DaemonProbe;
                  ConsoleError
                    [VStr "No active nerova agent daemon detected. Run `nerovaagent` first to activate it."]])
       /\ ("start" = "playwright-launch" -> In DaemonProbe evs)
       /\ ("start" = "start" ->
           reaches_gate (machine false) (parseArgs ["fix"; "the"; "bug"]) = true ->
           In DaemonProbe evs).
Proof.
  split; [reflexivity |].
  apply (gate_closed_exits_without_request (machine false) "start" ["fix"; "the"; "bug"]);
    [left; reflexivity | reflexivity].
Defined.

Lemma prompt_sources_witness :
  (exists resolved,
     emits (resolve_prompt (machine true)
              (parseArgs ["--prompt"; "a"; "--prompt-file"; "prompt.txt"]))
       (Normal resolved) [] None
     /\ opt_string resolved = "a")
  /\ (exists resolved,
        emits (resolve_prompt (machine true) (parseArgs ["--prompt-file"; "prompt.txt"; "x"]))
          (Normal resolved) [] None
        /\ opt_string resolved = "b")
  /\ run (machine true) ["start"]
     = (Exit 1%Z,
        {| events :=
             [ConsoleError
                [VStr "A prompt is required. Pass as argument or use --prompt/--prompt-file."]];
           exitCode := None |})
  /\ (exists r tail ec,
        run (machine true) ["start"; "fix"; "the"; "bug"]
        = (r, {| events :=
                   DaemonProbe
                   :: ClientRequest "/run/start" "POST"
                        (VObj [("prompt", VStr "fix the bug"); ("contextNotes", VStr "");
                               ("criticKey", VNull); ("assistantKey", VNull);
                               ("assistantId", VNull)])
                   :: tail;
                 exitCode := ec |}))
  /\ run (machine true) ["start"; "--prompt-file"; "missing.txt"; "fix"]
     = (Exit 1%Z,
        {| events :=
             [ConsoleError [VStr "Failed to read missing.txt:";
                            VStr "ENOENT: no such file or directory"]];
           exitCode := None |}).
Proof.
  split; [| split; [| split; [| split]]].
  - exact (proj1 (proj1 (prompt_is_first_truthy_source (machine true)
                           ["--prompt"; "a"; "--prompt-file"; "prompt.txt"])
                    eq_refl)).
  - exact (proj1 (proj1 (prompt_is_first_truthy_source (machine true)
                           ["--prompt-file"; "prompt.txt"; "x"])
                    eq_refl)).
  - exact (proj2 (proj1 (proj2 (proj1 (prompt_is_first_truthy_source (machine true) [])
                                  eq_refl)))
             eq_refl).
  - exact (proj2 (proj2 (proj2 (proj1 (prompt_is_first_truthy_source (machine true)
                                         ["fix"; "the"; "bug"])
                                  eq_refl))
                    eq_refl eq_refl eq_refl)).
  - exact (proj2 (prompt_is_first_truthy_source (machine true)
                    ["--prompt-file"; "missing.txt"; "fix"])
             "missing.txt" _ eq_refl eq_refl eq_refl).
Defined.

Lemma exit_code_witness :
  RunResult_shape failed_run = true
  /\ exists body ending ec,
       emits (renderRunResult failed_run) (Normal tt)
         (ConsoleLog [VStr "[nerovaagent] status=failed iterations=n/a agent=unknown"]
          :: body ++ ending) ec
       /\ Forall (fun ev => is_console_error ev = false) body
       /\ (VStr "failed" = VStr "completed" -> ec = None /\ ending = [])
       /\ (VStr "failed" <> VStr "completed" ->
           ec = Some 1%Z /\ ending = [diagnostic "failed"]).
Proof.
  split; [reflexivity |].
  exact (exit_code_by_effective_status failed_run eq_refl).
Defined.

Lemma recognized_flag_witness :
  Reads ["--prompt"; "a"; "x"; "--context"; ""; "--prompt"; "--context"; "y";
         "--critic-key"]
    [Pair "--prompt" "a"; Token "x"; Token "--context"; Token "";
     Pair "--prompt" "--context"; Token "y"; Token "--critic-key"]
  /\ parseArgs ["--prompt"; "a"; "x"; "--context"; ""; "--prompt"; "--context"; "y";
                "--critic-key"]
     = {| positional := ["x"; "--context"; ""; "y"; "--critic-key"];
          promptFile := None; prompt := Some "--context"; context := None;
          contextFile := None; criticKey := None; assistantKey := None;
          assistantId := None |}.
Proof.
  pose (reading :=
          Reads_pair "--prompt" "a" _ _ eq_refl eq_refl
            (Reads_token "x" _ _ eq_refl
               (Reads_flag_empty "--context" _ _ eq_refl
                  (Reads_token "" _ _ eq_refl
                     (Reads_pair "--prompt" "--context" _ _ eq_refl eq_refl
                        (Reads_token "y" _ _ eq_refl
                           (Reads_last_flag "--critic-key" eq_refl))))))).
  split; [exact reading |].
  exact (proj2 (recognized_flag_consumed_with_value _) _ reading).
Defined.

Lemma renderer_absence_witness :
  RunResult_shape bare_run = true
  /\ exists evs ec,
       emits (renderRunResult bare_run) (Normal tt) evs ec
       /\ evs = [ConsoleLog [VStr "[nerovaagent] status=unknown iterations=n/a agent=unknown"];
                 ConsoleLog [VStr " step ?: action=none"];
                 ConsoleLog [VStr " step ?: action=none"];
                 diagnostic "unknown"]
       /\ ec = Some 1%Z.
Proof.
  split; [reflexivity |].
  exact (renderer_never_fails_on_absence bare_run eq_refl).
Defined.

Lemma target_label_witness :
  TimelineEntry_shape ok_cancel_entry = true
  /\ is_record (prop (prop ok_cancel_entry "decision") "target") = true
  /\ emits (render_entry ok_cancel_entry) (Normal tt)
       [ConsoleLog [VStr " step 1: action=click"];
        ConsoleLog [VStr "   target: OK | Cancel"]] None.
Proof.
  split; [reflexivity | split; [reflexivity |]].
  exact (target_label_precedence ok_cancel_entry eq_refl eq_refl).
Defined.

Lemma result_line_witness :
  TimelineEntry_shape continue_entry = true
  /\ emits (render_result continue_entry) (Normal tt)
       [ConsoleLog [VStr "   clicked: btn-7 (state=n/a)"]] None.
Proof.
  split; [reflexivity |].
  exact (result_line_when_next_truthy continue_entry eq_refl).
Defined.


Lemma non_object_payload_witness :
  structured (VStr "failed") = false
  /\ emits (renderRunResult (VStr "failed")) (Normal tt)
       [ConsoleLog [VStr "Agent response:"; VStr (dquote ++ "failed" ++ dquote)]] None
  /\ exit_status (renderRunResult (VStr "failed") start_process) = 0%Z.
Proof.
  split; [reflexivity |].
  exact (non_object_payload_only_printed (VStr "failed") eq_refl).
Defined.

End Witnesses.

(** ** Where the code departs from the wording of the specification *)

Section Counterexamples.

Import Sample.

(** C2 as worded fails: with [--prompt " "] and the positional token [fix]
    a source yields a string that is not empty once trimmed, and the flow
    still ends with the missing-prompt error. *)
Lemma blank_prompt_flag_counterexample :
  no_source_yields (machine true) (parseArgs ["--prompt"; " "; "fix"]) = false
  /\ run (machine true) ["start"; "--prompt"; " "; "fix"]
     = (Exit 1%Z, {| events := [ConsoleError [VStr prompt_missing]];
                     exitCode := None |}).
Proof. split; reflexivity. Qed.

(** C3 as worded fails: on [{status: "", ok: true}] the status field is
    present and is not [completed], and the renderer reports [completed]
    and leaves the exit code alone. *)
Lemma empty_status_counterexample :
  RunResult_shape empty_status_run = true
  /\ status_if_present empty_status_run = VStr ""
  /\ renderRunResult empty_status_run start_process
     = (Normal tt,
        {| events :=
             [ConsoleLog [VStr "[nerovaagent] status=completed iterations=n/a agent=unknown"];
              empty_marker];
           exitCode := None |}).
Proof. repeat split. Qed.

(** C4 as worded fails: a recognized flag followed by the empty string is
    not consumed with it, and a recognized flag that is itself taken as the
    value of the flag before it is not consumed with the token after it. *)
Lemma flag_value_counterexample :
  parseArgs ["--prompt"; ""; "x"]
  = {| positional := ["--prompt"; ""; "x"]; promptFile := None; prompt := None;
       context := None; contextFile := None; criticKey := None;
       assistantKey := None; assistantId := None |}
  /\ parseArgs ["--prompt"; "--context"; "x"]
     = {| positional := ["x"]; promptFile := None; prompt := Some "--context";
          context := None; contextFile := None; criticKey := None;
          assistantKey := None; assistantId := None |}.
Proof. split; reflexivity. Qed.

(** C7 as worded fails: on [{next: "", clicked: {name: "Save"}}] the field
    [next] is present and is not [continue], and the renderer prints the
    clicked line, not the result line. *)
Lemma empty_next_counterexample :
  TimelineEntry_shape empty_next_entry = true
  /\ result_lines_if_present (prop empty_next_entry "result")
     = [ConsoleLog [VStr "   result: next="]]
  /\ render_result empty_next_entry start_process
     = (Normal tt,
        {| events := [ConsoleLog [VStr "   clicked: Save (state=n/a)"]];
           exitCode := None |}).
Proof. repeat split. Qed.

End Counterexamples.

(** * Further properties *)

(** ** More on the option parser *)

Section ParseArgsMore.

#[local] Open Scope list_scope.

Lemma push_all_fields (tokens : list string) (o : ParsedOptions) :
  push_all tokens o
  = {| positional := positional o ++ tokens; promptFile := promptFile o;
       prompt := prompt o; context := context o; contextFile := contextFile o;
       criticKey := criticKey o; assistantKey := assistantKey o;
       assistantId := assistantId o |}.
Proof.
  revert o. induction tokens as [| t rest IH]; intros o.
  - rewrite app_nil_r. now destruct o.
  - cbn [push_all fold_left]. change (fold_left _ rest ?x) with (push_all rest x).
    rewrite IH. cbn [push_positional positional promptFile prompt context
                     contextFile criticKey assistantKey assistantId].
    now rewrite <- app_assoc.
Qed.

Lemma Subsequence_app_r {A} (l1 l2 extra : list A) :
  Subsequence l1 l2 -> Subsequence l1 (l2 ++ extra).
Proof.
  intros H. induction H; cbn [app].
  - induction extra; [apply Subsequence_nil | now apply Subsequence_skip].
  - now apply Subsequence_skip.
  - now apply Subsequence_keep.
Qed.

Lemma Subsequence_snoc {A} (l1 l2 : list A) (x : A) :
  Subsequence l1 l2 -> Subsequence (l1 ++ [x]) (l2 ++ [x]).
Proof.
  intros H. induction H; cbn [app].
  - apply Subsequence_keep, Subsequence_nil.
  - now apply Subsequence_skip.
  - now apply Subsequence_keep.
Qed.

Lemma parseArgs_loop_all_plain (argv : list string) (out : ParsedOptions) :
  Forall (fun t => recognized t = false) argv ->
  parseArgs_loop argv out = push_all argv out.
Proof.
  intros H.
  destruct argv as [| t rest] using rev_ind; [reflexivity |].
  apply Forall_app in H as [Hrest _].
  rewrite parseArgs_loop_plain_prefix by assumption.
  cbn [parseArgs_loop]. unfold push_all. now rewrite fold_left_app.
Qed.

Lemma parseArgs_plain (argv : list string) :
  Forall (fun t => recognized t = false) argv ->
  parseArgs argv = push_all argv no_options.
Proof. intros H. unfold parseArgs. now apply parseArgs_loop_all_plain. Qed.

(** X1.  A command line that holds no recognized flag is positional from
    end to end: the tokens are kept, in their order, and no option is
    set. *)
Theorem parseArgs_without_flags (argv : list string) :
  Forall (fun t => recognized t = false) argv ->
  parseArgs argv
  = {| positional := argv; promptFile := None; prompt := None; context := None;
       contextFile := None; criticKey := None; assistantKey := None;
       assistantId := None |}.
Proof.
  intros H. rewrite parseArgs_plain by assumption. now rewrite push_all_fields.
Qed.

(** X2.  A value the parser stores for a flag is a token of the command
    line that is not empty and that comes right after that flag. *)
Theorem parsed_value_follows_its_flag (argv : list string) (flag v : string) :
  get_flag flag (parseArgs argv) = Some v ->
  nonempty v = true
  /\ exists before after, argv = before ++ flag :: v :: after.
Proof.
  unfold parseArgs.
  pose (P := fun (seen : list string) (o : ParsedOptions) =>
               forall f x, get_flag f o = Some x ->
                 nonempty x = true
                 /\ exists before after, seen = before ++ f :: x :: after).
  assert (H : P ([] ++ argv) (parseArgs_loop argv no_options)).
  { apply parseArgs_loop_invariant; unfold P.
    - intros seen token o IH f x Hf. rewrite get_flag_push in Hf.
      destruct (IH f x Hf) as (Hx & before & after & ->).
      split; [exact Hx |]. exists before, (after ++ [token]).
      now rewrite <- app_assoc.
    - intros seen fl val o Hrec Hval IH f x Hf.
      rewrite get_flag_set in Hf by assumption.
      destruct (f =? fl) eqn:E.
      + apply String.eqb_eq in E. subst f. injection Hf as <-.
        split; [exact Hval |]. now exists seen, [].
      + destruct (IH f x Hf) as (Hx & before & after & ->).
        split; [exact Hx |]. exists before, (after ++ [fl; val]).
        now rewrite <- app_assoc.
    - intros f x Hf. unfold get_flag, no_options in Hf.
      repeat destruct (_ =? _); discriminate. }
  intros Hf. exact (H flag v Hf).
Qed.

(** X3.  The positional tokens are tokens of the command line in the order
    of the command line: the parser drops the pairs it consumes and
    reorders nothing. *)
Theorem positional_in_order (argv : list string) :
  Subsequence (positional (parseArgs argv)) argv.
Proof.
  unfold parseArgs.
  change argv with ([] ++ argv) at 2.
  apply (parseArgs_loop_invariant (fun seen o => Subsequence (positional o) seen)).
  - intros seen token o IH. cbn [push_positional positional].
    now apply Subsequence_snoc.
  - intros seen flag v o _ _ IH. rewrite positional_set_flag.
    now apply Subsequence_app_r.
  - constructor.
Qed.

Lemma get_flag_push_all (flag : string) (tokens : list string) (o : ParsedOptions) :
  get_flag flag (push_all tokens o) = get_flag flag o.
Proof.
  revert o. induction tokens as [| t rest IH]; intros o; [reflexivity |].
  cbn [push_all fold_left]. change (fold_left _ rest ?x) with (push_all rest x).
  now rewrite IH, get_flag_push.
Qed.

Lemma positional_push_all (tokens : list string) (o : ParsedOptions) :
  positional (push_all tokens o) = positional o ++ tokens.
Proof. now rewrite push_all_fields. Qed.

(** X19.  A flag given twice keeps its later value: with plain tokens
    around the two pairs, the option holds the second value and the
    positional sequence is the plain tokens in their order. *)
Theorem later_flag_overrides (flag v1 v2 : string) (pre mid post : list string) :
  recognized flag = true ->
  nonempty v1 = true -> nonempty v2 = true ->
  Forall (fun t => recognized t = false) pre ->
  Forall (fun t => recognized t = false) mid ->
  Forall (fun t => recognized t = false) post ->
  let options := parseArgs (pre ++ flag :: v1 :: mid ++ flag :: v2 :: post) in
  get_flag flag options = Some v2
  /\ positional options = pre ++ mid ++ post.
Proof.
  intros Hf H1 H2 Hpre Hmid Hpost options. unfold options, parseArgs.
  rewrite parseArgs_loop_plain_prefix by assumption.
  rewrite parseArgs_loop_pair by assumption.
  rewrite parseArgs_loop_plain_prefix by assumption.
  rewrite parseArgs_loop_pair by assumption.
  rewrite parseArgs_loop_all_plain by assumption.
  split.
  - rewrite get_flag_push_all, get_flag_set by assumption.
    now rewrite String.eqb_refl.
  - rewrite positional_push_all, positional_set_flag, positional_push_all,
      positional_set_flag, positional_push_all.
    cbn [no_options positional app]. now rewrite app_assoc.
Qed.

End ParseArgsMore.

(** ** What the renderer never does *)

Section Confinement.

Context {N : Number}.

#[local] Open Scope list_scope.

Lemma quiet_ret {A} (a : A) : quiet (ret a).
Proof. apply wp_ret. repeat split; [now left | intros c H; discriminate]. Qed.

Lemma quiet_throw {A} (e : exn) : quiet (@throw _ A e).
Proof. apply wp_throw. repeat split; [now left | intros c H; discriminate]. Qed.

Lemma quiet_console_log (args : list value) : quiet (console_log args).
Proof. apply wp_emit. repeat split; [now left | intros c H; discriminate]. Qed.

Lemma quiet_console_error (args : list value) : quiet (console_error args).
Proof. apply wp_emit. repeat split; [now left | intros c H; discriminate]. Qed.

Lemma quiet_set_exitCode : quiet (set_exitCode 1).
Proof. apply wp_set_exitCode. repeat split; [now right | intros c H; discriminate]. Qed.

Lemma then_ec_one (c1 c2 : option Z) :
  c1 = None \/ c1 = Some 1%Z -> c2 = None \/ c2 = Some 1%Z ->
  then_ec c1 c2 = None \/ then_ec c1 c2 = Some 1%Z.
Proof. intros [-> | ->] [-> | ->]; cbn; auto. Qed.

Lemma quiet_bind {A B} (m : M A) (k : A -> M B) :
  quiet m -> (forall a, quiet (k a)) -> quiet (bind m k).
Proof.
  intros (r & e1 & c1 & Hm & He1 & Hc1 & Hr) Hk.
  destruct r as [a | e | c]; [| | now destruct (Hr c)].
  - destruct (Hk a) as (r' & e2 & c2 & Ha & He2 & Hc2 & Hr').
    exists r', (e1 ++ e2), (then_ec c1 c2).
    split; [eapply emits_bind; eassumption |].
    rewrite forallb_app, He1, He2. repeat split; [now apply then_ec_one | exact Hr'].
  - exists (Throw e), e1, c1.
    split; [now apply emits_bind_throw |]. split; [assumption | split; [assumption | intros c H; discriminate]].
Qed.

Lemma quiet_for_of {A} (items : list A) (body : A -> M unit) :
  (forall x, quiet (body x)) -> quiet (for_of items body).
Proof.
  intros Hbody. induction items as [| x rest IH]; cbn [for_of].
  - apply quiet_ret.
  - apply quiet_bind; [apply Hbody | intros _; exact IH].
Qed.

Lemma quiet_Get (v : value) (key : string) : quiet (Get v key).
Proof. unfold Get. destruct (nullish v); [apply quiet_throw | apply quiet_ret]. Qed.

Lemma quiet_str (v : value) : quiet (str v).
Proof. unfold str. destruct (ToString v); [apply quiet_ret | apply quiet_throw]. Qed.

Lemma quiet_joined sep (items : list value) : quiet (joined sep items).
Proof.
  unfold joined. destruct (Array_join sep items); [apply quiet_ret | apply quiet_throw].
Qed.

End Confinement.

Ltac quiet_step :=
  match goal with
  | |- quiet (bind _ _) => apply quiet_bind; [| intros ?]
  | |- quiet (ret _) => apply quiet_ret
  | |- quiet (throw _) => apply quiet_throw
  | |- quiet (Get _ _) => apply quiet_Get
  | |- quiet (str _) => apply quiet_str
  | |- quiet (joined _ _) => apply quiet_joined
  | |- quiet (console_log _) => apply quiet_console_log
  | |- quiet (console_error _) => apply quiet_console_error
  | |- quiet (set_exitCode _) => apply quiet_set_exitCode
  | |- quiet (for_of _ _) => apply quiet_for_of; intros ?
  | |- quiet (if ?b then _ else _) => destruct b
  | |- quiet (match ?v with _ => _ end) => destruct v
  end.

Ltac quiet_auto := cbv zeta; repeat quiet_step.

Section RendererConfined.

Context {N : Number}.

#[local] Open Scope list_scope.

Lemma quiet_render_entry entry : quiet (render_entry entry).
Proof.
  unfold render_entry, step_reason, render_target, target_label, render_result,
    render_assistant.
  quiet_auto.
Qed.

Lemma quiet_renderRunResult run : quiet (renderRunResult run).
Proof.
  unfold renderRunResult, effective_status, summary_line, exit_decision.
  quiet_auto. apply quiet_render_entry.
Qed.

(** X4.  Whatever value it is given, the renderer stays within the console:
    every event it adds is a console line, it never ends the process, and
    it leaves the exit code alone or sets it to 1; an exit code of 1 that
    was set before the rendering is still there after it. *)
Theorem renderer_confined_to_console (run : value) :
  exists r evs ec,
    emits (renderRunResult run) r evs ec
    /\ forallb console_only evs = true
    /\ (ec = None \/ ec = Some 1%Z)
    /\ (r = Normal tt \/ exists e, r = Throw e)
    /\ forall p, exitCode p = Some 1%Z ->
                 exitCode (snd (renderRunResult run p)) = Some 1%Z.
Proof.
  destruct (quiet_renderRunResult run) as (r & evs & ec & Hm & Hevs & Hec & Hr).
  exists r, evs, ec. repeat split; try assumption.
  - destruct r as [[] | e | c]; [now left | right; now exists e | now destruct (Hr c)].
  - intros p Hp. rewrite Hm. cbn [snd extend exitCode].
    destruct Hec as [-> | ->]; [exact Hp | reflexivity].
Qed.

(** X5.  An array is an object to the renderer, one with none of the fields
    of a run: whatever its elements, it is reported as a run of status
    [unknown] with an empty timeline, and the exit code is set to 1. *)
Theorem array_payload_reported_unknown (items : list value) :
  emits (renderRunResult (VArr items)) (Normal tt)
    [ConsoleLog [VStr "[nerovaagent] status=unknown iterations=n/a agent=unknown"];
     empty_marker;
     diagnostic "unknown"]
    (Some 1%Z).
Proof.
  intros p. unfold renderRunResult, extend.
  cbn. unfold console_error, emit, empty_marker, diagnostic. cbn.
  now rewrite <- !app_assoc.
Qed.

End RendererConfined.

(** ** A timeline entry that is no object *)

Section BrokenTimeline.

Context {N : Number}.

#[local] Open Scope list_scope.

Lemma emits_timeline_raise (good rest : list value) (bad : value) :
  forallb TimelineEntry_shape good = true ->
  nullish bad = true ->
  emits (for_of (good ++ bad :: rest) render_entry)
    (Throw (TypeError ("Cannot read properties of " ++ text bad
                       ++ " (reading 'iteration')")%string))
    (concat (map entry_lines good)) None.
Proof.
  intros Hgood Hbad. induction good as [| entry good IH];
    cbn [app for_of map concat forallb] in *.
  - apply emits_bind_throw. unfold render_entry. apply emits_bind_throw.
    unfold Get. rewrite Hbad. apply emits_throw.
  - apply andb_prop in Hgood as [He Hgood].
    change None with (then_ec None None).
    eapply emits_bind; [now apply emits_render_entry | now apply IH].
Qed.

(** X6.  A timeline entry that is [null] stops the rendering where it
    stands: the summary line and the lines of the entries before it are
    printed, then a TypeError is raised; the entries after it, the history
    and the diagnostic are not printed and the exit code is not set,
    whatever the status. *)
Theorem null_entry_stops_rendering
    (props : list (string * value)) (good rest : list value) (bad : value) :
  RunResult_shape (VObj props) = true ->
  forallb TimelineEntry_shape good = true ->
  nullish bad = true ->
  let run := VObj (("timeline", VArr (good ++ bad :: rest)) :: props) in
  emits (renderRunResult run)
    (Throw (TypeError ("Cannot read properties of " ++ text bad
                       ++ " (reading 'iteration')")%string))
    (summary_of (VObj props) (status_if_truthy (VObj props))
     :: concat (map entry_lines good))
    None.
Proof.
  intros H Hgood Hbad run.
  destruct (RunResult_fields (VObj props) H) as (_ & Hs & Hi & Ha & _ & _).
  assert (Hn : nullish run = false) by reflexivity.
  assert (Es : status_if_truthy run = status_if_truthy (VObj props)) by reflexivity.
  destruct (emits_summary_line run (status_if_truthy (VObj props)) Hn Hs Hi Ha)
    as (line & Hline & Eline).
  change (summary_of run (status_if_truthy (VObj props)))
    with (summary_of (VObj props) (status_if_truthy (VObj props))) in Eline.
  rewrite Eline.
  apply wp_emits. unfold renderRunResult. cbv zeta.
  change (negb (truthy run) || negb (typeof run =? "object")) with false. cbv iota.
  wp_step. eapply emits_wp; [now apply emits_effective_status |]. cbv beta iota.
  rewrite Es.
  wp_step. eapply emits_wp; [exact Hline |]. cbv beta iota.
  wp_run.
  change (prop run "timeline") with (VArr (good ++ bad :: rest)).
  cbn [timeline_of].
  replace (length (good ++ bad :: rest) =? 0)%nat with false
    by (destruct good; reflexivity).
  wp_run.
  eapply emits_wp; [now apply emits_timeline_raise |].
  repeat split.
Qed.

End BrokenTimeline.

(** ** The start flow past its gate *)

Section StartPastGate.

Context {N : Number}.
Variable w : world.

#[local] Open Scope list_scope.

Lemma emits_eq {A} (m : M A) r evs ec evs' ec' :
  emits m r evs ec -> evs = evs' -> ec = ec' -> emits m r evs' ec'.
Proof. now intros H <- <-. Qed.

Lemma emits_callRuntime_resolved pathname method body result :
  client_request w pathname method body = inl result ->
  emits (callRuntime w pathname method body) (Normal result)
    [ClientRequest pathname method body] None.
Proof.
  intros H. apply wp_emits. unfold callRuntime. rewrite H. wp_run. now repeat split.
Qed.


Lemma emits_request_failed what err :
  emits (request_failed what err) (Exit 1%Z) (failure_lines what err) None.
Proof.
  apply wp_emits. unfold request_failed, failure_lines.
  destruct (truthy (err_data err)); wp_run; now repeat split.
Qed.

(** [handleStart] up to its request: past the gate it has probed the daemon
    and goes on with the request of the resolved prompt and context. *)
Lemma handleStart_past_gate (options : ParsedOptions)
    (Q : completion unit -> list event -> option Z -> Prop) :
  reaches_gate w options = true ->
  isAgentDaemonRunning w = true ->
  wp (try_catch
        (result <- callRuntime w "/run/start" "POST" (start_payload w options) ;;
         renderRunResult result)
        (request_failed "Failed to start agent:"))
     (fun r evs ec => Q r (DaemonProbe :: evs) ec) ->
  wp (handleStart w options) Q.
Proof.
  unfold reaches_gate, start_payload, resolved_prompt, context_notes.
  intros Hg Hd Htry.
  pose proof (emits_resolve_prompt w options) as Hr.
  destruct (prompt_outcome w options) as [[[p |] | e | c] evs] eqn:H;
    try discriminate.
  apply andb_prop in Hg as [Hb Hc]. apply negb_true_iff in Hb.
  assert (Hevs : evs = []) by (eapply prompt_outcome_normal; eassumption).
  subst evs. cbn [fst snd] in Hr.
  unfold handleStart. wp_step.
  eapply emits_wp; [exact Hr |]. cbv beta iota.
  rewrite prompt_check_blank, Hb. cbn [negb]. cbv zeta.
  unfold resolve_context, context_readable, requireAgentDaemon in *. cbv zeta.
  rewrite Hd.
  destruct (negb (nonempty (opt_string (context options)))
            && opt_truthy (contextFile options)).
  - unfold loadFileSafe.
    destruct (readFileSync w (opt_string (contextFile options))); [| discriminate].
    wp_run. eapply wp_conseq; [exact Htry |].
    intros r e c HQ. cbn [app then_ec]. rewrite !then_ec_None_l. exact HQ.
  - wp_run. eapply wp_conseq; [exact Htry |].
    intros r e c HQ. cbn [app then_ec]. rewrite !then_ec_None_l. exact HQ.
Qed.

(** X7.  Past the gate, when the request resolves to a run result of the
    data model, [start] probes the daemon, issues the one request, prints
    the report and returns; the process then ends with status 0 exactly
    when the effective status of the run is [completed], with status 1
    otherwise. *)
Theorem start_reports_the_run (rest : list string) (result : value) :
  let options := parseArgs rest in
  reaches_gate w options = true ->
  isAgentDaemonRunning w = true ->
  client_request w "/run/start" "POST" (start_payload w options) = inl result ->
  RunResult_shape result = true ->
  run w ("start" :: rest)
  = (Normal tt,
     {| events := DaemonProbe :: start_request w options :: report_lines result;
        exitCode := exit_code_of (status_if_truthy result) |})
  /\ exit_status (run w ("start" :: rest))
     = (if is_string "completed" (status_if_truthy result) then 0 else 1)%Z.
Proof.
  intros options Hg Hd Hreq Hshape.
  assert (Hm : emits (handleStart w options) (Normal tt)
                 (DaemonProbe :: start_request w options :: report_lines result)
                 (exit_code_of (status_if_truthy result))).
  { apply wp_emits. apply handleStart_past_gate; try assumption.
    eapply emits_wp.
    - apply emits_try_normal.
      eapply emits_bind;
        [eapply emits_callRuntime_resolved; eassumption | now apply emits_renderRunResult].
    - repeat split. now rewrite then_ec_None_l. }
  assert (E : run w ("start" :: rest)
              = (Normal tt,
                 {| events := DaemonProbe :: start_request w options :: report_lines result;
                    exitCode := exit_code_of (status_if_truthy result) |})).
  { change (run w ("start" :: rest))
      with (try_catch (handleStart w options)
              (fun err => console_error [err_value err] ;; process_exit 1)
              start_process).
    unfold try_catch. rewrite Hm. unfold extend, start_process. cbn [events exitCode app].
    now destruct (exit_code_of _). }
  rewrite E. split; [reflexivity |].
  unfold exit_status, exit_code_of. cbn [exitCode].
  now destruct (is_string "completed" _).
Qed.


(** X9.  Past the gate, when the request resolves to a value on which the
    renderer raises, what the renderer had printed stays printed, the
    failure is reported as a failure to start the agent, and the process
    ends with code 1. *)
Theorem start_renderer_raises (rest : list string) (result : value)
    (e : exn) (evs : list event) (ec : option Z) :
  let options := parseArgs rest in
  reaches_gate w options = true ->
  isAgentDaemonRunning w = true ->
  client_request w "/run/start" "POST" (start_payload w options) = inl result ->
  emits (renderRunResult result) (Throw e) evs ec ->
  run w ("start" :: rest)
  = (Exit 1%Z,
     {| events := DaemonProbe :: start_request w options
                  :: evs ++ failure_lines "Failed to start agent:" e;
        exitCode := ec |}).
Proof.
  intros options Hg Hd Hreq Hrender.
  assert (Hm : emits (handleStart w options) (Exit 1%Z)
                 (DaemonProbe :: start_request w options
                  :: evs ++ failure_lines "Failed to start agent:" e) ec).
  { apply wp_emits. apply handleStart_past_gate; try assumption.
    eapply emits_wp.
    - eapply emits_try_throw; [| apply emits_request_failed].
      eapply emits_bind; [eapply emits_callRuntime_resolved; eassumption | exact Hrender].
    - repeat split. rewrite then_ec_None_l. now destruct ec. }
  change (run w ("start" :: rest))
    with (try_catch (handleStart w options)
            (fun err => console_error [err_value err] ;; process_exit 1)
            start_process).
  unfold try_catch. rewrite Hm. unfold extend, start_process.
  cbn [events exitCode app]. now destruct ec.
Qed.

End StartPastGate.

(** ** Every invocation *)

Section Bounded.

Context {N : Number}.

#[local] Open Scope list_scope.

Lemma count_requests_app (e1 e2 : list event) :
  count_requests (e1 ++ e2) = (count_requests e1 + count_requests e2)%nat.
Proof. unfold count_requests. now rewrite filter_app, length_app. Qed.

Lemma count_requests_console (evs : list event) :
  forallb console_only evs = true -> count_requests evs = 0%nat.
Proof.
  unfold count_requests. induction evs as [| ev rest IH]; [reflexivity |].
  cbn [forallb filter]. intros H. apply andb_prop in H as [Hev Hrest].
  destruct ev; try discriminate; cbn [is_request]; auto.
Qed.

Lemma bounded_weaken {A} (n n' : nat) (m : M A) :
  (n <= n')%nat -> bounded n m -> bounded n' m.
Proof.
  intros Hle (r & evs & ec & Hm & Hn & Hec & Hr).
  exists r, evs, ec. repeat split; try assumption. lia.
Qed.

Lemma bounded_quiet {A} (m : M A) : quiet m -> bounded 0 m.
Proof.
  intros (r & evs & ec & Hm & Hevs & Hec & Hr).
  exists r, evs, ec. split; [exact Hm |]. split; [| split; [exact Hec |]].
  - now rewrite count_requests_console.
  - intros c E. now destruct (Hr c).
Qed.

Lemma bounded_ret {A} (a : A) : bounded 0 (ret a).
Proof. apply bounded_quiet, quiet_ret. Qed.

Lemma bounded_throw {A} (e : exn) : bounded 0 (@throw _ A e).
Proof. apply bounded_quiet, quiet_throw. Qed.

Lemma bounded_exit {A} : bounded 0 (@process_exit _ A 1).
Proof.
  apply wp_exit. split; [apply Nat.le_refl |]. split; [now left |].
  intros c E. now injection E as <-.
Qed.

Lemma bounded_emit (ev : event) : is_request ev = false -> bounded 0 (emit ev).
Proof.
  intros H. apply wp_emit. unfold count_requests. cbn [filter]. rewrite H.
  split; [apply Nat.le_refl |]. split; [now left |]. intros c E. discriminate.
Qed.

Lemma bounded_bind {A B} (n1 n2 : nat) (m : M A) (k : A -> M B) :
  bounded n1 m -> (forall a, bounded n2 (k a)) -> bounded (n1 + n2) (bind m k).
Proof.
  intros (r & e1 & c1 & Hm & Hn1 & Hc1 & Hr) Hk.
  destruct r as [a | e | c].
  - destruct (Hk a) as (r' & e2 & c2 & Ha & Hn2 & Hc2 & Hr').
    exists r', (e1 ++ e2), (then_ec c1 c2).
    split; [eapply emits_bind; eassumption |].
    rewrite count_requests_app.
    split; [lia |]. split; [now apply then_ec_one | exact Hr'].
  - exists (Throw e), e1, c1. split; [now apply emits_bind_throw |].
    split; [lia |]. split; [assumption |]. intros c E. discriminate.
  - exists (Exit c), e1, c1. split; [now apply emits_bind_exit |].
    split; [lia |]. split; [assumption |].
    intros c0 E. injection E as <-. now apply Hr.
Qed.

Lemma bounded_try_catch {A} (n1 n2 : nat) (m : M A) (h : exn -> M A) :
  bounded n1 m -> (forall e, bounded n2 (h e)) -> bounded (n1 + n2) (try_catch m h).
Proof.
  intros (r & e1 & c1 & Hm & Hn1 & Hc1 & Hr) Hh.
  destruct r as [a | e | c].
  - exists (Normal a), e1, c1. split; [now apply emits_try_normal |].
    split; [lia |]. split; [assumption |]. intros c E. discriminate.
  - destruct (Hh e) as (r' & e2 & c2 & He & Hn2 & Hc2 & Hr').
    exists r', (e1 ++ e2), (then_ec c1 c2).
    split; [eapply emits_try_throw; eassumption |].
    rewrite count_requests_app.
    split; [lia |]. split; [now apply then_ec_one | exact Hr'].
  - exists (Exit c), e1, c1. split; [now apply emits_try_exit |].
    split; [lia |]. split; assumption.
Qed.

Variable w : world.

Lemma bounded_callRuntime pathname method body :
  bounded 1 (callRuntime w pathname method body).
Proof.
  unfold callRuntime.
  apply wp_bind, wp_emit. cbv beta iota.
  destruct (client_request w pathname method body) as [result | err];
    [apply wp_ret | apply wp_throw];
    (split; [apply Nat.le_refl |]; split; [now left |]; intros c E; discriminate).
Qed.

Lemma bounded_console_then_exit {A} (args : list value) :
  bounded 0 (console_error args ;; @process_exit _ A 1).
Proof.
  apply (bounded_bind 0 0); [apply bounded_quiet, quiet_console_error |].
  intros _. apply bounded_exit.
Qed.

Lemma bounded_request_failed what err : bounded 0 (request_failed what err).
Proof.
  unfold request_failed.
  apply (bounded_bind 0 0); [apply bounded_quiet, quiet_console_error | intros _].
  apply (bounded_bind 0 0); [| intros _; apply bounded_exit].
  destruct (truthy (err_data err));
    apply bounded_quiet; [apply quiet_console_error | apply quiet_ret].
Qed.

Lemma bounded_loadFileSafe path : bounded 0 (loadFileSafe w path).
Proof.
  unfold loadFileSafe. destruct (readFileSync w path);
    [apply bounded_ret | apply bounded_console_then_exit].
Qed.

Lemma bounded_requireAgentDaemon : bounded 0 (requireAgentDaemon w).
Proof.
  unfold requireAgentDaemon.
  apply (bounded_bind 0 0); [now apply bounded_emit | intros _].
  destruct (isAgentDaemonRunning w); [apply bounded_ret | apply bounded_console_then_exit].
Qed.

Lemma bounded_handleStart options : bounded 1 (handleStart w options).
Proof.
  unfold handleStart.
  apply (bounded_bind 0 1).
  { unfold resolve_prompt. cbv zeta.
    apply (bounded_bind 0 0); [| intros ?; apply bounded_ret].
    destruct (_ && _); [| apply bounded_ret].
    apply (bounded_bind 0 0); [apply bounded_loadFileSafe | intros ?; apply bounded_ret]. }
  intros [prompt |]; [| apply (bounded_weaken 0); [lia | apply bounded_console_then_exit]].
  destruct (_ && _);
    [| apply (bounded_weaken 0); [lia | apply bounded_console_then_exit]].
  apply (bounded_bind 0 1).
  { unfold resolve_context. cbv zeta.
    destruct (_ && _); [apply bounded_loadFileSafe | apply bounded_ret]. }
  intros notes. cbv zeta.
  apply (bounded_bind 0 1); [apply bounded_requireAgentDaemon | intros _].
  apply (bounded_try_catch 1 0); [| intros e; apply bounded_request_failed].
  apply (bounded_bind 1 0); [apply bounded_callRuntime |].
  intros result. apply bounded_quiet, quiet_renderRunResult.
Qed.

Lemma bounded_handlePlaywrightLaunch : bounded 1 (handlePlaywrightLaunch w).
Proof.
  unfold handlePlaywrightLaunch.
  apply (bounded_bind 0 1); [apply bounded_requireAgentDaemon | intros _].
  apply (bounded_try_catch 1 0); [| intros e; apply bounded_request_failed].
  apply (bounded_bind 1 0); [apply bounded_callRuntime |].
  intros result. apply bounded_quiet, quiet_console_log.
Qed.

Lemma bounded_handleStatus : bounded 1 (handleStatus w).
Proof.
  unfold handleStatus.
  apply (bounded_try_catch 1 0); [| intros e; apply bounded_console_then_exit].
  apply (bounded_bind 1 0); [apply bounded_callRuntime |].
  intros result. apply bounded_quiet, quiet_console_log.
Qed.

Lemma bounded_handleActivate : bounded 0 (handleActivate w).
Proof.
  unfold handleActivate. cbv zeta.
  apply (bounded_try_catch 0 0); [| intros e; apply bounded_console_then_exit].
  apply (bounded_bind 0 0); [now apply bounded_emit | intros _].
  destruct (ensureAgentDaemon w _); [| apply bounded_throw].
  apply bounded_quiet. quiet_auto.
Qed.

Lemma bounded_main args : bounded 1 (main w args).
Proof.
  unfold main. cbv zeta.
  destruct args as [| command rest];
    [apply (bounded_weaken 0); [lia | apply bounded_handleActivate] |].
  repeat match goal with
         | |- bounded 1 (if ?b then _ else _) => destruct b
         end;
    try apply bounded_handleStart;
    try apply bounded_handlePlaywrightLaunch;
    try apply bounded_handleStatus;
    try (apply (bounded_weaken 0); [lia |]);
    try apply bounded_handleActivate;
    try (now apply bounded_emit);
    try (apply bounded_quiet, quiet_console_log).
  apply (bounded_bind 0 0); [apply bounded_quiet, quiet_console_error | intros _].
  apply (bounded_bind 0 0); [apply bounded_quiet, quiet_console_log | intros _].
  apply bounded_exit.
Qed.

(** X10.  Whatever the command line and whatever the collaborators answer,
    an invocation of the client (any command but [agent-daemon], which
    hands the process over to the daemon) returns or ends the process with
    code 1, never with an error left uncaught; it sets no exit code but 1,
    so the status of the process is 0 or 1; and it issues at most one
    request. *)
Theorem every_invocation_bounded (args : list string) :
  hd "" args <> "agent-daemon" ->
  exists r evs ec,
    run w args = (r, {| events := evs; exitCode := ec |})
    /\ (r = Normal tt \/ r = Exit 1%Z)
    /\ (ec = None \/ ec = Some 1%Z)
    /\ (count_requests evs <= 1)%nat
    /\ (exit_status (run w args) = 0%Z \/ exit_status (run w args) = 1%Z).
Proof.
  intros _.
  destruct (bounded_main args) as (r & evs & ec & Hm & Hn & Hec & Hr).
  assert (Hp : extend start_process evs ec = {| events := evs; exitCode := ec |}).
  { unfold extend, start_process. cbn. now destruct ec. }
  unfold run, try_catch. rewrite Hm, Hp.
  destruct r as [[] | e | c].
  - exists (Normal tt), evs, ec. repeat split; auto.
    unfold exit_status. cbn. destruct Hec as [-> | ->]; auto.
  - exists (Exit 1%Z), (evs ++ [ConsoleError [err_value e]]), ec.
    unfold console_error, process_exit, bind, emit. cbn.
    repeat split; auto.
    rewrite count_requests_app. cbn. lia.
  - rewrite (Hr c eq_refl). exists (Exit 1%Z), evs, ec. repeat split; auto.
Qed.

End Bounded.

(** ** The other commands *)

Section OtherCommands.

Context {N : Number}.
Variable w : world.

#[local] Open Scope list_scope.

(** X11.  With the daemon running, [playwright-launch] probes it and issues
    one POST to the launch endpoint, with no body, whatever follows the
    command on the line.  When the request resolves it prints the
    serialised result and returns; when it is rejected it prints the
    failure, the service-side payload if any, and ends the process with
    code 1. *)
Theorem playwright_launch_outcome (rest : list string) :
  isAgentDaemonRunning w = true ->
  let request := ClientRequest "/runtime/playwright/launch" "POST" VUndefined in
  run w ("playwright-launch" :: rest)
  = match client_request w "/runtime/playwright/launch" "POST" VUndefined with
    | inl result =>
        (Normal tt,
         {| events := [DaemonProbe; request;
                       ConsoleLog [VStr "Playwright ready:";
                                   string_or_undefined (JSON_stringify result)]];
            exitCode := None |})
    | inr err =>
        (Exit 1%Z,
         {| events := DaemonProbe :: request
                      :: failure_lines "Failed to warm Playwright runtime:" err;
            exitCode := None |})
    end.
Proof.
  intros Hd request.
  unfold run, main, handlePlaywrightLaunch, requireAgentDaemon, callRuntime,
    request_failed, failure_lines.
  cbn [tl String.eqb Ascii.eqb Bool.eqb]. rewrite Hd.
  destruct (client_request w "/runtime/playwright/launch" "POST" VUndefined)
    as [result | err].
  - reflexivity.
  - cbv [try_catch bind emit console_error process_exit ret throw start_process
         events exitCode app].
    destruct (truthy (err_data err)); reflexivity.
Qed.

(** X12.  [status] never consults the daemon probe: whether or not a daemon
    runs it issues one GET to the health endpoint, whatever follows the
    command on the line.  When the request resolves it prints the
    serialised result and returns; when it is rejected it prints the
    failure alone (no service-side payload) and ends the process with
    code 1. *)
Theorem status_outcome (rest : list string) :
  let request := ClientRequest "/healthz" "GET" VUndefined in
  run w ("status" :: rest)
  = match client_request w "/healthz" "GET" VUndefined with
    | inl result =>
        (Normal tt,
         {| events := [request;
                       ConsoleLog [VStr "Runtime status:";
                                   string_or_undefined (JSON_stringify result)]];
            exitCode := None |})
    | inr err =>
        (Exit 1%Z,
         {| events := [request;
                       ConsoleError [VStr "Runtime not reachable:"; message_or_err err]];
            exitCode := None |})
    end.
Proof.
  intros request.
  unfold run, main, handleStatus, callRuntime.
  cbn [tl String.eqb Ascii.eqb Bool.eqb].
  destruct (client_request w "/healthz" "GET" VUndefined); reflexivity.
Qed.

(** X13.  The bare invocation and [activate], with anything after it, are
    the same command: the daemon is not probed and no request is issued,
    the activation is asked for once with the origin of the client.  When
    it fails the failure is printed and the process ends with code 1; when
    it returns an identifier the identifier and the hint are printed. *)
Theorem activation_outcome (rest : list string) :
  let config := VObj [("origin", client_origin w)] in
  run w ("activate" :: rest) = run w []
  /\ (forall err,
        ensureAgentDaemon w config = inr err ->
        run w []
        = (Exit 1%Z,
           {| events := [DaemonEnsure config;
                         ConsoleError [VStr "Failed to activate agent daemon:";
                                       message_or_err err]];
              exitCode := None |}))
  /\ (forall pid,
        ensureAgentDaemon w config = inl pid ->
        is_scalar pid = true ->
        run w []
        = (Normal tt,
           {| events := [DaemonEnsure config;
                         ConsoleLog [VStr ("[nerovaagent] agent daemon running (pid "
                                           ++ text pid ++ ")")%string];
                         ConsoleLog [VStr ("[nerovaagent] You can now run `nerovaagent playwright-launch` or `nerovaagent start "
                                           ++ dquote ++ "<prompt>" ++ dquote ++ "`.")%string]];
              exitCode := None |})).
Proof.
  intros config. split; [reflexivity |]. split.
  - intros err H. unfold run, main, handleActivate. fold config. rewrite H. reflexivity.
  - intros pid H Hpid. unfold run, main, handleActivate. fold config. rewrite H.
    unfold str. rewrite (ToString_scalar pid Hpid). reflexivity.
Qed.

Lemma known_command_false (command : string) :
  known_command command = false ->
  (command =? "agent-daemon") = false /\ (command =? "activate") = false
  /\ (command =? "playwright-launch") = false /\ (command =? "start") = false
  /\ (command =? "status") = false /\ (command =? "help") = false
  /\ (command =? "--help") = false /\ (command =? "-h") = false.
Proof.
  unfold known_command, known_commands. cbn [existsb]. intros H.
  repeat (apply orb_false_elim in H as [? H]). repeat split; assumption.
Qed.

(** X14.  [help], [--help] and [-h] print the usage and return, with
    whatever follows them; a first token that is no command prints that it
    is unknown, then the same usage, and ends the process with code 1.  No
    collaborator is called on either path. *)
Theorem usage_outcome (command : string) (rest : list string) :
  (command = "help" \/ command = "--help" \/ command = "-h" ->
   run w (command :: rest)
   = (Normal tt, {| events := [ConsoleLog [VStr help_text]]; exitCode := None |}))
  /\ (known_command command = false ->
      run w (command :: rest)
      = (Exit 1%Z,
         {| events := [ConsoleError [VStr ("Unknown command: " ++ command)%string];
                       ConsoleLog [VStr help_text]];
            exitCode := None |})).
Proof.
  split.
  - intros [-> | [-> | ->]]; reflexivity.
  - intros H. apply known_command_false in H
      as (H1 & H2 & H3 & H4 & H5 & H6 & H7 & H8).
    unfold run, main. cbv zeta. rewrite H1, H2, H3, H4, H5, H6, H7, H8.
    reflexivity.
Qed.

End OtherCommands.

(** ** The context and the request of the start flow *)

Section StartContext.

Context {N : Number}.
Variable w : world.

#[local] Open Scope list_scope.

(** X15.  The context notes of [start] are the value of [--context] when it
    is not empty, else the contents of the file of [--context-file], else
    the empty string: a missing context is no error.  A context file that
    cannot be read ends a flow whose prompt was resolved with the file-read
    error and code 1, before the daemon is probed or any request issued. *)
Theorem context_is_first_truthy_source (options : ParsedOptions) :
  let given := opt_string (context options) in
  (nonempty given = true ->
   emits (resolve_context w options) (Normal given) [] None)
  /\ (forall path contents,
        nonempty given = false ->
        contextFile options = Some path -> nonempty path = true ->
        readFileSync w path = inl contents ->
        emits (resolve_context w options) (Normal contents) [] None)
  /\ (nonempty given = false -> opt_truthy (contextFile options) = false ->
      emits (resolve_context w options) (Normal ""%string) [] None)
  /\ (forall path err p,
        nonempty given = false ->
        contextFile options = Some path -> nonempty path = true ->
        readFileSync w path = inr err ->
        prompt_outcome w options = (Normal (Some p), []) -> blank p = false ->
        emits (handleStart w options) (Exit 1%Z) [read_failure path err] None).
Proof.
  intros given. unfold resolve_context. cbv zeta. fold given.
  split; [| split; [| split]].
  - intros Hg. rewrite Hg. apply emits_ret.
  - intros path contents Hg Hf Hpath Hread.
    rewrite Hg, Hf. cbn [negb andb opt_truthy opt_string]. rewrite Hpath.
    unfold loadFileSafe. rewrite Hread. apply emits_ret.
  - intros Hg Hf. rewrite Hg, Hf. cbn [negb andb].
    destruct given; [apply emits_ret | discriminate].
  - intros path err p Hg Hf Hpath Hread Hprompt Hb.
    pose proof (emits_resolve_prompt w options) as Hr. rewrite Hprompt in Hr.
    cbn [fst snd] in Hr.
    apply wp_emits. unfold handleStart. wp_step.
    eapply emits_wp; [exact Hr |]. cbv beta iota.
    rewrite prompt_check_blank, Hb. cbn [negb]. cbv zeta.
    unfold resolve_context. cbv zeta. fold given.
    rewrite Hg, Hf. cbn [negb andb opt_truthy opt_string]. rewrite Hpath.
    unfold loadFileSafe. rewrite Hread.
    wp_run. now repeat split.
Qed.

(** X16.  With a [--prompt] and a [--context] on the line the start flow
    does not depend on the file system: put any other files in place of the
    ones there are, and it does the same. *)
Theorem flags_spare_the_files (options : ParsedOptions)
    (files : string -> string + exn) (p : process) :
  opt_truthy (prompt options) = true ->
  nonempty (opt_string (context options)) = true ->
  handleStart (with_files w files) options p = handleStart w options p.
Proof.
  intros Hp Hc.
  unfold handleStart, resolve_prompt, resolve_context. cbv zeta.
  rewrite Hp, Hc. reflexivity.
Qed.

(** [handleStart] short of its gate. *)
Lemma handleStart_short (options : ParsedOptions) :
  reaches_gate w options = false ->
  exists line,
    emits (handleStart w options) (Exit 1%Z) [ConsoleError line] None.
Proof.
  intros Hg.
  destruct (prompt_outcome_cases w options) as [(resolved & H) | (path & err & H)].
  - destruct (blank (opt_string resolved)) eqn:Hb.
    + eexists. eapply handleStart_blank; eassumption.
    + destruct resolved as [p0 |]; [| discriminate]. cbn [opt_string] in Hb.
      unfold reaches_gate in Hg. rewrite H, Hb in Hg. cbn [negb andb] in Hg.
      unfold context_readable in Hg.
      destruct (negb (nonempty (opt_string (context options)))
                && opt_truthy (contextFile options)) eqn:Hctx; [| discriminate].
      destruct (readFileSync w (opt_string (contextFile options))) as [c | err] eqn:Hread;
        [discriminate |].
      pose proof (emits_resolve_prompt w options) as Hr. rewrite H in Hr.
      cbn [fst snd] in Hr.
      eexists. apply wp_emits. unfold handleStart. wp_step.
      eapply emits_wp; [exact Hr |]. cbv beta iota.
      rewrite prompt_check_blank, Hb. cbn [negb]. cbv zeta.
      unfold resolve_context. cbv zeta. rewrite Hctx.
      unfold loadFileSafe. rewrite Hread.
      wp_run. now repeat split.
  - eexists. eapply handleStart_unreadable. exact H.
Qed.

Lemma null_or_nonempty_key (flag : option string) (name : string) :
  null_or_nonempty (key_or_env w flag name) = true.
Proof.
  unfold key_or_env.
  destruct flag as [s |]; cbn [opt_truthy opt_string].
  - destruct (nonempty s) eqn:Hs; [exact Hs |].
    destruct (env w name) as [e |]; cbn [opt_truthy opt_string]; [| reflexivity].
    destruct (nonempty e) eqn:He; [exact He | reflexivity].
  - destruct (env w name) as [e |]; cbn [opt_truthy opt_string]; [| reflexivity].
    destruct (nonempty e) eqn:He; [exact He | reflexivity].
Qed.

(** Past the gate with the daemon running, [handleStart] probes, issues its
    request, and adds nothing but console lines after it; it raises
    nothing. *)
Lemma handleStart_issues_request (options : ParsedOptions) :
  reaches_gate w options = true ->
  isAgentDaemonRunning w = true ->
  wp (handleStart w options)
    (fun r evs ec =>
       (forall e, r <> Throw e)
       /\ exists tail,
            evs = DaemonProbe :: start_request w options :: tail
            /\ forallb console_only tail = true).
Proof.
  intros Hg Hd.
  apply handleStart_past_gate; try assumption.
  apply wp_try_catch. unfold callRuntime.
  apply wp_bind, wp_bind, wp_emit. cbv beta iota.
  destruct (client_request w "/run/start" "POST" (start_payload w options))
    as [result | err].
  - apply wp_ret. cbv beta iota.
    destruct (quiet_renderRunResult result) as (r & evs & ec & Hm & Hevs & _ & Hr).
    eapply emits_wp; [exact Hm |].
    destruct r as [[] | e | c]; [| | now destruct (Hr c)].
    + split; [intros e E; discriminate |].
      exists evs. split; [reflexivity | exact Hevs].
    + eapply emits_wp; [apply emits_request_failed |].
      split; [intros e0 E; discriminate |].
      exists (evs ++ failure_lines "Failed to start agent:" e).
      split; [reflexivity |].
      rewrite forallb_app, Hevs. unfold failure_lines.
      now destruct (truthy (err_data e)).
  - apply wp_throw. cbv beta iota.
    eapply emits_wp; [apply emits_request_failed |].
    split; [intros e0 E; discriminate |].
    exists (failure_lines "Failed to start agent:" err).
    split; [reflexivity |]. unfold failure_lines.
    now destruct (truthy (err_data err)).
Qed.

(** X17.  A request that [start] issues is the one POST to the start
    endpoint, issued only past the gate with the daemon running, and its
    body is a well-formed run request: a prompt that is a string and is not
    empty, context notes that are a string, and three credentials each of
    which is [null] or a string that is not empty. *)
Theorem start_request_well_formed (rest : list string) (ev : event) :
  let options := parseArgs rest in
  In ev (events (snd (run w ("start" :: rest)))) ->
  is_request ev = true ->
  reaches_gate w options = true
  /\ isAgentDaemonRunning w = true
  /\ ev = ClientRequest "/run/start" "POST" (start_payload w options)
  /\ (exists p, prop (start_payload w options) "prompt" = VStr p
                /\ nonempty p = true)
  /\ (exists notes, prop (start_payload w options) "contextNotes" = VStr notes)
  /\ null_or_nonempty (prop (start_payload w options) "criticKey") = true
  /\ null_or_nonempty (prop (start_payload w options) "assistantKey") = true
  /\ null_or_nonempty (prop (start_payload w options) "assistantId") = true.
Proof.
  intros options Hin Hreq.
  change (run w ("start" :: rest))
    with (try_catch (handleStart w options)
            (fun err => console_error [err_value err] ;; process_exit 1)
            start_process) in Hin.
  assert (Hno : forall evs,
            emits (handleStart w options) (Exit 1%Z) evs None ->
            forallb (fun e => negb (is_request e)) evs = true -> False).
  { intros evs Hm Hevs. unfold try_catch in Hin. rewrite Hm in Hin.
    cbn [snd extend events start_process app] in Hin.
    rewrite forallb_forall in Hevs. apply Hevs in Hin.
    now rewrite Hreq in Hin. }
  destruct (reaches_gate w options) eqn:Hg.
  2: { exfalso. destruct (handleStart_short options Hg) as (line & Hm).
       now apply (Hno _ Hm). }
  destruct (isAgentDaemonRunning w) eqn:Hd.
  2: { exfalso. pose proof (handleStart_at_gate w options Hg Hd) as Hm.
       now apply (Hno _ Hm). }
  split; [reflexivity |]. split; [reflexivity |].
  assert (Hprompt : exists p, prop (start_payload w options) "prompt" = VStr p
                              /\ nonempty p = true).
  { exists (trim (resolved_prompt w options)). split; [reflexivity |].
    unfold reaches_gate in Hg. unfold resolved_prompt.
    destruct (prompt_outcome w options) as [[[p0 |] | e | c] evs]; try discriminate.
    apply andb_prop in Hg as [Hb _]. unfold blank in Hb.
    now rewrite negb_involutive in Hb. }
  assert (Hev : ev = ClientRequest "/run/start" "POST" (start_payload w options)).
  { destruct (handleStart_issues_request options Hg Hd)
      as (r & evs & ec & Hm & Hr & tail & -> & Htail).
    unfold try_catch in Hin. rewrite Hm in Hin.
    assert (Hin' : In ev (DaemonProbe :: start_request w options :: tail)).
    { destruct r as [[] | e | c]; [exact Hin | now destruct (Hr e) | exact Hin]. }
    destruct Hin' as [<- | [<- | Hin']]; [discriminate | reflexivity |].
    exfalso. rewrite forallb_forall in Htail. apply Htail in Hin'.
    destruct ev; discriminate. }
  split; [exact Hev |]. split; [exact Hprompt |].
  split; [eexists; reflexivity |].
  repeat split; apply null_or_nonempty_key.
Qed.

(** X18.  [start] followed by plain tokens only (no recognized flag) that
    are not all blank sends them as the prompt, joined with single spaces
    and trimmed, with empty context notes and the credentials of the
    environment; what follows the request is console output. *)
Theorem plain_start_sends_joined_tokens (rest : list string) :
  Forall (fun t => recognized t = false) rest ->
  blank (join " " rest) = false ->
  isAgentDaemonRunning w = true ->
  exists r tail ec,
    run w ("start" :: rest)
    = (r,
       {| events :=
            DaemonProbe
            :: ClientRequest "/run/start" "POST"
                 (VObj [("prompt", VStr (trim (join " " rest)));
                        ("contextNotes", VStr "");
                        ("criticKey", key_or_env w None "NEROVA_AGENT_CRITIC_KEY");
                        ("assistantKey", key_or_env w None "NEROVA_AGENT_ASSISTANT_KEY");
                        ("assistantId", key_or_env w None "NEROVA_AGENT_ASSISTANT_ID")])
            :: tail;
          exitCode := ec |})
    /\ forallb console_only tail = true.
Proof.
  intros Hplain Hb Hd.
  pose proof (parseArgs_plain rest Hplain) as Hopts.
  rewrite push_all_fields in Hopts. cbn [no_options positional promptFile prompt
    context contextFile criticKey assistantKey assistantId app] in Hopts.
  assert (Hlen : (0 <? length rest)%nat = true).
  { destruct rest; [discriminate | reflexivity]. }
  assert (Hout : prompt_outcome w (parseArgs rest) = (Normal (Some (join " " rest)), [])).
  { rewrite Hopts. unfold prompt_outcome.
    cbn [prompt promptFile positional opt_truthy]. now rewrite Hlen. }
  assert (Hg : reaches_gate w (parseArgs rest) = true).
  { unfold reaches_gate. rewrite Hout, Hb. rewrite Hopts. reflexivity. }
  assert (Hpay : start_payload w (parseArgs rest)
                 = VObj [("prompt", VStr (trim (join " " rest)));
                         ("contextNotes", VStr "");
                         ("criticKey", key_or_env w None "NEROVA_AGENT_CRITIC_KEY");
                         ("assistantKey", key_or_env w None "NEROVA_AGENT_ASSISTANT_KEY");
                         ("assistantId", key_or_env w None "NEROVA_AGENT_ASSISTANT_ID")]).
  { unfold start_payload, resolved_prompt. rewrite Hout.
    unfold context_notes, payload_of. rewrite Hopts. reflexivity. }
  destruct (handleStart_issues_request (parseArgs rest) Hg Hd)
    as (r & evs & ec & Hm & Hr & tail & -> & Htail).
  unfold start_request in Hm. rewrite Hpay in Hm.
  change (run w ("start" :: rest))
    with (try_catch (handleStart w (parseArgs rest))
            (fun err => console_error [err_value err] ;; process_exit 1)
            start_process).
  unfold try_catch. rewrite Hm.
  exists r, tail, ec. split; [| exact Htail].
  unfold extend, start_process. cbn [events exitCode app].
  destruct r as [[] | e | c]; [| now destruct (Hr e) |]; now destruct ec.
Qed.

End StartContext.

(** ** The further theorems at concrete inputs *)

Section MoreWitnesses.

Import Sample Fixture.

#[local] Open Scope list_scope.

Lemma parseArgs_without_flags_witness :
  Forall (fun t => recognized t = false) ["fix"; "the"; "bug"]
  /\ parseArgs ["fix"; "the"; "bug"]
     = {| positional := ["fix"; "the"; "bug"]; promptFile := None; prompt := None;
          context := None; contextFile := None; criticKey := None;
          assistantKey := None; assistantId := None |}.
Proof.
  assert (H : Forall (fun t => recognized t = false) ["fix"; "the"; "bug"])
    by (repeat constructor).
  split; [exact H | exact (parseArgs_without_flags ["fix"; "the"; "bug"] H)].
Defined.

Lemma parsed_value_witness :
  get_flag "--context" (parseArgs ["go"; "--context"; "be brief"; "now"]) = Some "be brief"
  /\ nonempty "be brief" = true
  /\ exists before after,
       ["go"; "--context"; "be brief"; "now"] = before ++ "--context" :: "be brief" :: after.
Proof.
  split; [reflexivity |].
  exact (parsed_value_follows_its_flag ["go"; "--context"; "be brief"; "now"]
           "--context" "be brief" eq_refl).
Defined.

Lemma null_entry_witness :
  RunResult_shape (VObj [("status", VStr "failed")]) = true
  /\ emits (renderRunResult
              (VObj [("timeline", VArr [VObj [("iteration", VNum 1%Z)]; VNull; VObj []]);
                     ("status", VStr "failed")]))
       (Throw (TypeError "Cannot read properties of null (reading 'iteration')"))
       [ConsoleLog [VStr "[nerovaagent] status=failed iterations=n/a agent=unknown"];
        ConsoleLog [VStr " step 1: action=none"]]
       None.
Proof.
  split; [reflexivity |].
  exact (null_entry_stops_rendering [("status", VStr "failed")]
           [VObj [("iteration", VNum 1%Z)]] [VObj []] VNull eq_refl eq_refl eq_refl).
Defined.

Lemma start_reports_witness :
  reaches_gate (machine true) (parseArgs ["fix"; "the"; "bug"]) = true
  /\ run (machine true) ["start"; "fix"; "the"; "bug"]
     = (Normal tt,
        {| events :=
             [DaemonProbe;
              start_request (machine true) (parseArgs ["fix"; "the"; "bug"]);
              ConsoleLog [VStr "[nerovaagent] status=completed iterations=1 agent=unknown"];
              empty_marker];
           exitCode := None |})
  /\ exit_status (run (machine true) ["start"; "fix"; "the"; "bug"]) = 0%Z.
Proof.
  split; [reflexivity |].
  exact (start_reports_the_run (machine true) ["fix"; "the"; "bug"] _
           eq_refl eq_refl eq_refl eq_refl).
Defined.


Lemma start_renderer_raises_witness :
  reaches_gate broken_machine (parseArgs ["fix"]) = true
  /\ run broken_machine ["start"; "fix"]
     = (Exit 1%Z,
        {| events :=
             [DaemonProbe;
              start_request broken_machine (parseArgs ["fix"]);
              ConsoleLog [VStr "[nerovaagent] status=failed iterations=n/a agent=unknown"];
              ConsoleError [VStr "Failed to start agent:";
                            VStr "Cannot read properties of null (reading 'iteration')"]];
           exitCode := None |}).
Proof.
  split; [reflexivity |].
  refine (start_renderer_raises broken_machine ["fix"]
            (VObj [("status", VStr "failed"); ("timeline", VArr [VNull])])
            (TypeError "Cannot read properties of null (reading 'iteration')")
            [ConsoleLog [VStr "[nerovaagent] status=failed iterations=n/a agent=unknown"]]
            None eq_refl eq_refl eq_refl _).
  intros p. reflexivity.
Defined.

Lemma every_invocation_witness :
  hd "" ["start"; "fix"] <> "agent-daemon"
  /\ exists r evs ec,
       run rejecting_machine ["start"; "fix"] = (r, {| events := evs; exitCode := ec |})
       /\ (r = Normal tt \/ r = Exit 1%Z)
       /\ (ec = None \/ ec = Some 1%Z)
       /\ (count_requests evs <= 1)%nat
       /\ (exit_status (run rejecting_machine ["start"; "fix"]) = 0%Z
           \/ exit_status (run rejecting_machine ["start"; "fix"]) = 1%Z).
Proof.
  assert (H : hd "" ["start"; "fix"] <> "agent-daemon") by discriminate.
  split; [exact H | exact (every_invocation_bounded rejecting_machine ["start"; "fix"] H)].
Defined.

Lemma playwright_launch_witness :
  isAgentDaemonRunning rejecting_machine = true
  /\ run rejecting_machine ["playwright-launch"; "--now"]
     = (Exit 1%Z,
        {| events :=
             [DaemonProbe;
              ClientRequest "/runtime/playwright/launch" "POST" VUndefined;
              ConsoleError [VStr "Failed to warm Playwright runtime:";
                            VStr "connect ECONNREFUSED"];
              ConsoleError [VStr "Runtime response:"; VObj [("error", VStr "busy")]]];
           exitCode := None |}).
Proof.
  split; [reflexivity |].
  exact (playwright_launch_outcome rejecting_machine ["--now"] eq_refl).
Defined.

Lemma activation_witness :
  run rejecting_machine []
  = (Exit 1%Z,
     {| events := [DaemonEnsure (VObj [("origin", VStr "http://127.0.0.1:3333")]);
                   ConsoleError [VStr "Failed to activate agent daemon:";
                                 VStr "spawn failed"]];
        exitCode := None |})
  /\ run broken_machine []
     = (Normal tt,
        {| events := [DaemonEnsure (VObj [("origin", VStr "http://127.0.0.1:3333")]);
                      ConsoleLog [VStr "[nerovaagent] agent daemon running (pid 7)"];
                      ConsoleLog [VStr ("[nerovaagent] You can now run `nerovaagent playwright-launch` or `nerovaagent start "
                                        ++ dquote ++ "<prompt>" ++ dquote ++ "`.")%string]];
           exitCode := None |}).
Proof.
  split.
  - exact (proj1 (proj2 (activation_outcome rejecting_machine [])) _ eq_refl).
  - exact (proj2 (proj2 (activation_outcome broken_machine [])) _ eq_refl eq_refl).
Defined.

Lemma usage_witness :
  run (machine false) ["--help"; "start"]
  = (Normal tt, {| events := [ConsoleLog [VStr help_text]]; exitCode := None |})
  /\ known_command "launch" = false
  /\ run (machine false) ["launch"]
     = (Exit 1%Z,
        {| events := [ConsoleError [VStr "Unknown command: launch"];
                      ConsoleLog [VStr help_text]];
           exitCode := None |}).
Proof.
  split; [| split; [reflexivity |]].
  - exact (proj1 (usage_outcome (machine false) "--help" ["start"])
             (or_intror (or_introl eq_refl))).
  - exact (proj2 (usage_outcome (machine false) "launch" []) eq_refl).
Defined.

Lemma context_witness :
  emits (resolve_context broken_machine (parseArgs ["--context"; "be brief"; "--context-file"; "c.txt"]))
    (Normal "be brief"%string) [] None
  /\ emits (resolve_context broken_machine (parseArgs ["--context-file"; "c.txt"]))
       (Normal "notes"%string) [] None
  /\ emits (handleStart rejecting_machine (parseArgs ["fix"; "--context-file"; "c.txt"]))
       (Exit 1%Z)
       [ConsoleError [VStr "Failed to read c.txt:"; VStr "ENOENT"]] None.
Proof.
  split; [| split].
  - exact (proj1 (context_is_first_truthy_source broken_machine
                    (parseArgs ["--context"; "be brief"; "--context-file"; "c.txt"]))
             eq_refl).
  - exact (proj1 (proj2 (context_is_first_truthy_source broken_machine
                           (parseArgs ["--context-file"; "c.txt"])))
             "c.txt"%string "notes"%string eq_refl eq_refl eq_refl eq_refl).
  - exact (proj2 (proj2 (proj2 (context_is_first_truthy_source rejecting_machine
                                  (parseArgs ["fix"; "--context-file"; "c.txt"]))))
             "c.txt"%string _ "fix"%string eq_refl eq_refl eq_refl eq_refl eq_refl eq_refl).
Defined.

Lemma flags_spare_the_files_witness :
  opt_truthy (prompt (parseArgs ["--prompt"; "a"; "--context"; "c"; "--prompt-file"; "p.txt"])) = true
  /\ handleStart (with_files (machine true) other_files)
       (parseArgs ["--prompt"; "a"; "--context"; "c"; "--prompt-file"; "p.txt"]) start_process
     = handleStart (machine true)
         (parseArgs ["--prompt"; "a"; "--context"; "c"; "--prompt-file"; "p.txt"]) start_process.
Proof.
  split; [reflexivity |].
  exact (flags_spare_the_files (machine true)
           (parseArgs ["--prompt"; "a"; "--context"; "c"; "--prompt-file"; "p.txt"])
           other_files start_process eq_refl eq_refl).
Defined.

Lemma start_request_witness :
  let ev := ClientRequest "/run/start" "POST"
              (VObj [("prompt", VStr "fix"); ("contextNotes", VStr "");
                     ("criticKey", VStr "sk-env"); ("assistantKey", VNull);
                     ("assistantId", VNull)]) in
  In ev (events (snd (run broken_machine ["start"; " fix "])))
  /\ ev = ClientRequest "/run/start" "POST"
            (start_payload broken_machine (parseArgs [" fix "])).
Proof.
  cbv zeta.
  assert (Hin : In (ClientRequest "/run/start" "POST"
                      (VObj [("prompt", VStr "fix"); ("contextNotes", VStr "");
                             ("criticKey", VStr "sk-env"); ("assistantKey", VNull);
                             ("assistantId", VNull)]))
                  (events (snd (run broken_machine ["start"; " fix "]))))
    by (right; left; reflexivity).
  split; [exact Hin |].
  exact (proj1 (proj2 (proj2
           (start_request_well_formed broken_machine [" fix "] _ Hin eq_refl)))).
Defined.

Lemma plain_start_witness :
  Forall (fun t => recognized t = false) ["fix"; "the"; "bug"]
  /\ exists r tail ec,
       run (machine true) ["start"; "fix"; "the"; "bug"]
       = (r,
          {| events :=
               DaemonProbe
               :: ClientRequest "/run/start" "POST"
                    (VObj [("prompt", VStr "fix the bug"); ("contextNotes", VStr "");
                           ("criticKey", VNull); ("assistantKey", VNull);
                           ("assistantId", VNull)])
               :: tail;
             exitCode := ec |})
       /\ forallb console_only tail = true.
Proof.
  assert (H : Forall (fun t => recognized t = false) ["fix"; "the"; "bug"])
    by (repeat constructor).
  split; [exact H |].
  exact (plain_start_sends_joined_tokens (machine true) ["fix"; "the"; "bug"]
           H eq_refl eq_refl).
Defined.

Lemma later_flag_witness :
  recognized "--prompt" = true
  /\ get_flag "--prompt"
       (parseArgs ["do"; "--prompt"; "first"; "it"; "--prompt"; "second"; "now"])
     = Some "second"
  /\ positional (parseArgs ["do"; "--prompt"; "first"; "it"; "--prompt"; "second"; "now"])
     = ["do"; "it"; "now"].
Proof.
  split; [reflexivity |].
  refine (later_flag_overrides "--prompt" "first" "second" ["do"] ["it"] ["now"]
            eq_refl eq_refl eq_refl _ _ _); repeat constructor.
Defined.

End MoreWitnesses.
